(** * lancache-dns configuration generator (cmd/lancache-dns.go)

    A shallow embedding of the Go command that builds the cache zone and the
    response-policy zone of a lancache DNS container, and the properties of
    it that the specification states.

    Modelling choices.
    - A Go [string] is a Rocq [string] (a sequence of bytes).
    - The process environment is a finite map from names to values;
      [os.Getenv] gives the empty string for a missing name, [os.LookupEnv]
      tells a missing name from an empty value.
    - The file system is a finite map from path to content.  A path is its
      own file handle: the program never renames or removes a file.  The
      only I/O failure modelled is opening a missing file for reading;
      creating, appending and closing succeed.
    - A Go function returning [error] is a state transformer on the file
      system that yields [Ok], [Err msg] or [Panic msg]; the writes made
      before an error stay in the file system, as they do on disk.
    - [log.Print] and [log.Printf] write to standard error only and are
      left out; [log.Fatal err] ends the process and is the [Err] outcome
      of the entry point. *)

From Stdlib Require Import ZArith String Ascii List Bool DecimalString Lia.
From stdpp Require Import base option list gmap strings.

Local Open Scope string_scope.

(** ** Go values *)

(** The line feed that [fmt.Fprintln] appends and [ReadLine] splits on. *)
Definition LF : ascii := "010"%char.
Definition CR : ascii := "013"%char.
Definition nl : string := String LF "".

(** A Go slice of strings; [None] is the nil slice. *)
Definition slice : Type := option (list string).

(** The elements a [for _, x := range s] loop visits. *)
Definition range (s : slice) : list string := default [] s.

(** A Go [error] value: [None] is nil, [Some msg] carries the message. *)
Definition error : Type := option string.

Module strings.

Definition upper_byte (c : ascii) : ascii :=
  let n := nat_of_ascii c in
  if (97 <=? n)%nat && (n <=? 122)%nat then ascii_of_nat (n - 32) else c.

Definition lower_byte (c : ascii) : ascii :=
  let n := nat_of_ascii c in
  if (65 <=? n)%nat && (n <=? 90)%nat then ascii_of_nat (n + 32) else c.

Fixpoint map_bytes (f : ascii -> ascii) (s : string) : string :=
  match s with
  | EmptyString => EmptyString
  | String c s' => String (f c) (map_bytes f s')
  end.

(** [strings.ToUpper] and [strings.ToLower] on the ASCII letters; bytes
    outside a-z / A-Z are kept (Go maps non-ASCII runes by the Unicode
    tables, which are not modelled). *)
Definition ToUpper : string -> string := map_bytes upper_byte.
Definition ToLower : string -> string := map_bytes lower_byte.

(** [strings.HasPrefix s prefix]. *)
Definition HasPrefix (s p : string) : bool := String.prefix p s.

(** The ASCII white space of the [strings] package:
    tab, line feed, vertical tab, form feed, carriage return, space. *)
Definition isSpace (c : ascii) : bool :=
  let n := nat_of_ascii c in
  ((9 <=? n)%nat && (n <=? 13)%nat) || (n =? 32)%nat.

Fixpoint trimLeft (s : string) : string :=
  match s with
  | String c s' => if isSpace c then trimLeft s' else s
  | EmptyString => EmptyString
  end.

(** Drops the white space at the end: a byte is kept when it is not a
    space or when something is kept after it. *)
Fixpoint trimRight (s : string) : string :=
  match s with
  | String c s' =>
      match trimRight s' with
      | EmptyString => if isSpace c then EmptyString else String c EmptyString
      | t => String c t
      end
  | EmptyString => EmptyString
  end.

(** [strings.TrimSpace], for ASCII white space. *)
Definition TrimSpace (s : string) : string := trimRight (trimLeft s).

(** [strings.Split s sep] for a one-byte separator. *)
Fixpoint Split_go (sep : ascii) (s cur : string) : list string :=
  match s with
  | EmptyString => [cur]
  | String c s' =>
      if Ascii.eqb c sep then cur :: Split_go sep s' ""
      else Split_go sep s' (cur +:+ String c "")
  end.
Definition Split (s : string) (sep : ascii) : list string := Split_go sep s "".

(** [strings.Join elems sep]. *)
Fixpoint Join (elems : list string) (sep : string) : string :=
  match elems with
  | [] => ""
  | [x] => x
  | x :: rest => x +:+ sep +:+ Join rest sep
  end.

(** [strings.NewReplacer(pairs...).Replace]: the target is read left to
    right; at each position the pairs are tried in argument order, the
    first whose old string is a prefix there is replaced and skipped,
    otherwise one byte is copied.  [skip] counts the bytes of a matched
    old string still to pass over.  No old string is empty here. *)
Fixpoint Replace_go (pairs : list (string * string)) (s : string) (skip : nat)
  : string :=
  match s with
  | EmptyString => EmptyString
  | String c s' =>
      match skip with
      | S k => Replace_go pairs s' k
      | O =>
          match List.find (fun p => String.prefix (fst p) s) pairs with
          | Some (old, new) => new +:+ Replace_go pairs s' (String.length old - 1)
          | None => String c (Replace_go pairs s' 0)
          end
      end
  end.
Definition Replace (pairs : list (string * string)) (s : string) : string :=
  Replace_go pairs s 0.

End strings.

Module strconv.
(** [strconv.FormatInt i 10]. *)
Definition FormatInt (i : Z) : string := NilZero.string_of_int (Z.to_int i).
End strconv.

Module bufio.

(** Size of the buffer of [bufio.NewReader]. *)
Definition defaultBufSize : nat := 4096.

(** One trailing carriage return is dropped from a line that ended in a
    line feed. *)
Fixpoint dropCR (s : string) : string :=
  match s with
  | EmptyString => EmptyString
  | String c EmptyString => if Ascii.eqb c CR then EmptyString else s
  | String c s' => String c (dropCR s')
  end.

(** The lines that successive [ReadLine] calls return until [io.EOF],
    the [isPrefix] result being ignored as the caller ignores it.
    [cur] holds the [n] bytes read since the last line, oldest first.
    - A line feed ends the line, without its "\n" or "\r\n".
    - When the buffer fills with no line feed in it, its content is
      handed out as a line of its own; a carriage return at its end is
      put back for the next call.
    - At the end of the input the bytes left over form a last line. *)
Fixpoint ReadLines_go (s cur : string) (n : nat) : list string :=
  match s with
  | EmptyString => if (n =? 0)%nat then [] else [cur]
  | String c s' =>
      if Ascii.eqb c LF then dropCR cur :: ReadLines_go s' "" 0
      else if (S n =? defaultBufSize)%nat then
        if Ascii.eqb c CR then cur :: ReadLines_go s' (String CR "") 1
        else (cur +:+ String c "") :: ReadLines_go s' "" 0
      else ReadLines_go s' (cur +:+ String c "") (S n)
  end.
Definition ReadLines (content : string) : list string :=
  ReadLines_go content "" 0.

End bufio.

(** ** Environment and file system *)

Module os.

Definition Getenv (environ : gmap string string) (key : string) : string :=
  default "" (environ !! key).

Definition LookupEnv (environ : gmap string string) (key : string)
  : option string := environ !! key.

End os.

(** Outcome of a call. *)
Inductive res (A : Type) : Type :=
| Ok (a : A)
| Err (msg : string)
| Panic (msg : string).
Arguments Ok {A} a.
Arguments Err {A} msg.
Arguments Panic {A} msg.

(** A computation on the file system. *)
Definition IO (A : Type) : Type :=
  gmap string string -> gmap string string * res A.

Definition ret {A} (a : A) : IO A := fun fs => (fs, Ok a).
Definition fail {A} (msg : string) : IO A := fun fs => (fs, Err msg).
Definition panic {A} (msg : string) : IO A := fun fs => (fs, Panic msg).

Definition bind {A B} (m : IO A) (k : A -> IO B) : IO B :=
  fun fs =>
    match m fs with
    | (fs', Ok a) => k a fs'
    | (fs', Err msg) => (fs', Err msg)
    | (fs', Panic msg) => (fs', Panic msg)
    end.

Declare Scope io_scope.
Delimit Scope io_scope with io.
Notation "x <- m ;; k" := (bind m (fun x => k))
  (at level 100, m at next level, right associativity) : io_scope.
Notation "m ;; k" := (bind m (fun _ => k))
  (at level 100, right associativity) : io_scope.
Local Open Scope io_scope.

(** [if err := e; err != nil { return err }]. *)
Definition check (e : error) : IO unit :=
  match e with
  | Some msg => fail msg
  | None => ret tt
  end.

(** [os.Create path]: the file exists and is empty afterwards. *)
Definition Create (path : string) : IO unit :=
  fun fs => (<[path := ""]> fs, Ok tt).

(** [os.OpenFile path (O_APPEND|O_CREATE|O_WRONLY)]: creates the file empty
    when it is missing, leaves it as it is otherwise. *)
Definition OpenAppend (path : string) : IO unit :=
  fun fs =>
    match fs !! path with
    | Some _ => (fs, Ok tt)
    | None => (<[path := ""]> fs, Ok tt)
    end.

(** [fmt.Fprint f text] on a handle opened on [path]: the text goes to the
    end of the file. *)
Definition Fprint (path text : string) : IO unit :=
  fun fs => (<[path := default "" (fs !! path) +:+ text]> fs, Ok tt).

(** [fmt.Fprintln f text]. *)
Definition Fprintln (path text : string) : IO unit :=
  Fprint path (text +:+ nl).

(** [os.ReadFile path], and [os.Open path] followed by reading the file. *)
Definition ReadFile (path : string) : IO string :=
  fun fs =>
    match fs !! path with
    | Some content => (fs, Ok content)
    | None => (fs, Err ("open " +:+ path +:+ ": no such file or directory"))
    end.

(** [os.WriteFile path data]. *)
Definition WriteFile (path data : string) : IO unit :=
  fun fs => (<[path := data]> fs, Ok tt).

(** [_, err := os.Stat path; os.IsNotExist err]. *)
Definition NotExist (path : string) : IO bool :=
  fun fs => (fs, Ok (bool_decide (fs !! path = None))).

(** ** Declarations of the package outside lancache-dns.go *)

(** The catalog document, as lancache-dns.go reads it:
    [cacheData.CacheDomains], [services.Name], [services.DomainFiles]. *)
Record CacheDomain : Type := {
  Name : string;
  DomainFiles : list string
}.

Record CacheFile : Type := {
  CacheDomains : list CacheDomain
}.

(** Constants and helpers that lancache-dns.go uses and that the package
    declares in its other files.  They are parameters of the development:
    every theorem holds whatever their values are. *)
Class Package : Type := {
  (** paths *)
  zonePath : string;
  rpzZone : string;
  cacheConf : string;
  customZone : string;
  namedConf : string;
  domainsPath : string;
  cacheDomain : string;
  (** file bodies *)
  cacheConfTemplate : string;
  rpzTemplate : string;
  (** [fmt.Sprintf fmtCacheTemplate domain serial] *)
  fmtCacheTemplate : string -> string -> string;
  (** IP helpers *)
  cleanIP : string -> slice;
  isIP : slice -> error;
  isPrivateIP : slice -> error;
  reverseIPv4 : string -> string
}.

(** What the program takes from outside the package: the JSON decoder at
    the catalog type, and the git child processes, which act on the file
    system and may fail. *)
Class Runtime : Type := {
  jsonUnmarshal : string -> string + CacheFile;
  gitRun : list string -> gmap string string -> gmap string string * error
}.

(** ** The program *)

Section Program.

Context `{Package} `{Runtime}.

(** The process environment. *)
Variable environ : gmap string string.

(** lines 67-92 *)
Fixpoint writeNameservers (path : string) (dns : list string) : IO unit :=
  match dns with
  | [] => ret tt
  | d :: rest =>
      Fprintln path ("nameserver " +:+ d) ;;
      writeNameservers path rest
  end.

Definition writeResolverConfiguration (dns : slice) : IO unit :=
  Create "/etc/resolv.conf" ;;
  Fprintln "/etc/resolv.conf" "# Lancache dns config" ;;
  writeNameservers "/etc/resolv.conf" (range dns).

(** [cmd.Run] of a git child process. *)
Definition git (args : list string) : IO unit :=
  fun fs => let '(fs', err) := gitRun args fs in
            (fs', match err with Some msg => Err msg | None => Ok tt end).

(** [_ = cmd.Run()]: the error is dropped. *)
Definition git_ (args : list string) : IO unit :=
  fun fs => (fst (gitRun args fs), Ok tt).

(** lines 94-136 *)
Definition bootstrapDNS : IO unit :=
  let cacheDomainsRepo := os.Getenv environ "CACHE_DOMAINS_REPO" in
  let cacheDomainsBranch := os.Getenv environ "CACHE_DOMAINS_BRANCH" in
  let noFetch :=
    if negb (String.eqb (os.Getenv environ "NOFETCH") "")
    then os.Getenv environ "NOFETCH" else "false" in
  missing <- NotExist (domainsPath +:+ "/.git") ;;
  (if missing : bool then git ["clone"; cacheDomainsRepo; "."] else ret tt) ;;
  if negb (String.eqb noFetch "true") then
    git_ ["remote"; "set-url"; "origin"; cacheDomainsRepo] ;;
    git_ ["fetch"; "origin"] ;;
    git_ ["reset"; "--hard"; "origin/" +:+ cacheDomainsBranch]
  else ret tt.

(** lines 138-152 *)
Definition checkGenericCache (useGenericCache cacheIP : string) : error :=
  let ips := cleanIP cacheIP in
  if String.eqb useGenericCache "true" then
    if String.eqb cacheIP "" then
      Some "If you are using USE_GENERIC_CACHE then you must set LANCACHE_IP"
    else isPrivateIP ips
  else if negb (String.eqb cacheIP "") then
    Some "If you are using LANCACHE_IP then you must set USE_GENERIC_CACHE=true"
  else None.

(** lines 189-206 *)
Definition generateCacheConf : IO unit :=
  Create cacheConf ;;
  Fprintln cacheConf cacheConfTemplate.

(** lines 208-226; [now] is the reading of [time.Now().Unix()]. *)
Definition generateCacheZone (now : Z) (lancacheDNSDomain cacheZone : string)
  : IO unit :=
  Create cacheZone ;;
  Fprint cacheZone (fmtCacheTemplate lancacheDNSDomain (strconv.FormatInt now)).

(** lines 228-245 *)
Definition generateRPZZone : IO unit :=
  Create rpzZone ;;
  Fprintln rpzZone rpzTemplate.

(** lines 263-267: the loop over the catalog entries; [DomainFiles[0]]
    panics on an entry without domain files. *)
Fixpoint identifyServices_loop (entries : list CacheDomain)
    (serviceMap serviceFileMap : list string)
  : res (list string * list string) :=
  match entries with
  | [] => Ok (serviceMap, serviceFileMap)
  | services :: rest =>
      let service := Name services in
      let serviceMap := (serviceMap ++ [service])%list in
      match DomainFiles services !! 0%nat with
      | Some file => identifyServices_loop rest serviceMap (serviceFileMap ++ [file])%list
      | None => Panic "runtime error: index out of range [0] with length 0"
      end
  end.

(** lines 247-270 *)
Definition identifyServices : IO (list string * list string) :=
  f <- ReadFile (domainsPath +:+ "/" +:+ cacheDomain) ;;
  match jsonUnmarshal f with
  | inl msg => fail msg
  | inr cacheData =>
      fun fs => (fs, identifyServices_loop (CacheDomains cacheData) [] [])
  end.

(** lines 383-424: one rewrite record per line that does not start
    with '#'.  The domain file is read as it is when opened, which is
    what happens unless it is the RPZ file itself. *)
Fixpoint generateDomains_loop (lines : list string)
    (lancacheDNSDomain service : string) : IO unit :=
  match lines with
  | [] => ret tt
  | line :: rest =>
      if strings.HasPrefix line "#" then
        generateDomains_loop rest lancacheDNSDomain service
      else
        Fprintln rpzZone
          (strings.TrimSpace line +:+ " IN CNAME " +:+ service +:+ "."
             +:+ lancacheDNSDomain +:+ ".;") ;;
        generateDomains_loop rest lancacheDNSDomain service
  end.

Definition generateDomains (serviceFile lancacheDNSDomain service : string)
  : IO unit :=
  f <- ReadFile (domainsPath +:+ "/" +:+ serviceFile) ;;
  OpenAppend rpzZone ;;
  generateDomains_loop (bufio.ReadLines f) lancacheDNSDomain service.

(** lines 285-299: the local [enabled]; [service] is already upper case. *)
Definition enabled (genericCache service : string) : bool :=
  if String.eqb genericCache "true" then
    negb (String.eqb (os.Getenv environ ("DISABLE_" +:+ service)) "true")
  else
    match os.LookupEnv environ (service +:+ "CACHE_IP") with
    | Some _ => true
    | None => false
    end.

(** lines 302-306: the local [ip]. *)
Definition serviceIP (cacheIP service : string) : string :=
  if negb (String.eqb (os.Getenv environ (service +:+ "CACHE_IP")) "")
  then os.Getenv environ (service +:+ "CACHE_IP")
  else cacheIP.

(** lines 333-366: the loop over the addresses; its result is the local
    [populate], set by every iteration. *)
Fixpoint generateService_loop (ips : list string) (cacheZone service : string)
    (populate : bool) : IO bool :=
  match ips with
  | [] => ret populate
  | ip :: rest =>
      OpenAppend cacheZone ;;
      Fprintln cacheZone (service +:+ " IN A " +:+ ip +:+ ";") ;;
      OpenAppend rpzZone ;;
      let revIP := reverseIPv4 ip in
      Fprintln rpzZone
        ("32." +:+ revIP +:+ ".rpz-client-ip      CNAME rpz-passthru.;") ;;
      generateService_loop rest cacheZone service true
  end.

(** lines 308-366: what an enabled service with a non-empty [ip] does. *)
Definition enableService (ip cacheZone lancacheDNSDomain service serviceFile
    : string) : IO unit :=
  let service := strings.ToLower service in
  OpenAppend rpzZone ;;
  Fprintln rpzZone (";## " +:+ service) ;;
  let ips := cleanIP ip in
  check (isPrivateIP ips) ;;
  populate <- generateService_loop (range ips) cacheZone service false ;;
  if populate : bool
  then generateDomains serviceFile lancacheDNSDomain service
  else ret tt.

(** lines 284-381 *)
Definition generateService (genericCache cacheIP cacheZone lancacheDNSDomain
    service serviceFile : string) : IO unit :=
  let service := strings.ToUpper service in
  if enabled genericCache service then
    let ip := serviceIP cacheIP service in
    if negb (String.eqb ip "") then
      enableService ip cacheZone lancacheDNSDomain service serviceFile
    else
      fail ("Could not find IP for requested service: " +:+ service)
  else ret tt.

(** lines 272-282; [serviceFiles[i]] panics when out of range. *)
Fixpoint checkService_loop (i : nat) (genericCache cacheIP cacheZone
    lancacheDNSDomain : string) (services serviceFiles : list string)
  : IO unit :=
  match services with
  | [] => ret tt
  | service :: rest =>
      match serviceFiles !! i with
      | Some serviceFile =>
          generateService genericCache cacheIP cacheZone lancacheDNSDomain
            service serviceFile ;;
          checkService_loop (S i) genericCache cacheIP cacheZone
            lancacheDNSDomain rest serviceFiles
      | None => panic "runtime error: index out of range"
      end
  end.

Definition checkService (genericCache cacheIP cacheZone lancacheDNSDomain
    : string) (services serviceFiles : list string) : IO unit :=
  checkService_loop 0 genericCache cacheIP cacheZone lancacheDNSDomain
    services serviceFiles.

(** lines 433-453 *)
Fixpoint passthru_loop (ips : list string) : IO unit :=
  match ips with
  | [] => ret tt
  | ip :: rest =>
      OpenAppend rpzZone ;;
      Fprintln rpzZone ";## Additional RPZ passthroughs" ;;
      let revIP := reverseIPv4 ip in
      Fprintln rpzZone
        ("32." +:+ revIP +:+ ".rpz-client-ip      CNAME rpz-passthru.") ;;
      passthru_loop rest
  end.

(** lines 427-454 *)
Definition finalisePassthru : IO unit :=
  let ip := os.Getenv environ "PASSTHRU_IPS" in
  if negb (String.eqb ip "") then
    let ips := cleanIP ip in
    check (isIP ips) ;;
    passthru_loop (range ips)
  else ret tt.

(** lines 456-482 *)
Definition finaliseCustomZone : IO unit :=
  missing <- NotExist customZone ;;
  (if missing : bool then Create customZone else ret tt) ;;
  OpenAppend rpzZone ;;
  Fprintln rpzZone ("$INCLUDE " +:+ customZone).

(** lines 484-505 *)
Definition finaliseNamedConf (dns : slice) : IO unit :=
  match dns with
  | None => ret tt
  | Some servers =>
      f <- ReadFile namedConf ;;
      let lines := strings.Split f LF in
      let r :=
        if String.eqb (os.Getenv environ "ENABLE_DNSSEC_VALIDATION") "true"
        then [("#ENABLE_UPSTREAM_DNS#", ""); ("dns_ip", strings.Join servers "; ");
              ("dnssec-validation no", "dnssec-validation auto")]
        else [("#ENABLE_UPSTREAM_DNS#", ""); ("dns_ip", strings.Join servers "; ")] in
      let lines := List.map (strings.Replace r) lines in
      let output := strings.Join lines nl in
      WriteFile namedConf output
  end.

(** lines 426-510 *)
Definition finaliseConfiguration (dns : slice) : IO unit :=
  finalisePassthru ;;
  finaliseCustomZone ;;
  finaliseNamedConf dns.

(** lines 154-187 *)
Definition generateConfiguration (now : Z) (useGenericCache lancacheDNSDomain
    cacheIP cacheZone : string) (dns : slice) : IO unit :=
  generateCacheConf ;;
  generateCacheZone now lancacheDNSDomain cacheZone ;;
  generateRPZZone ;;
  found <- identifyServices ;;
  let '(services, serviceFiles) := found in
  checkService useGenericCache cacheIP cacheZone lancacheDNSDomain
    services serviceFiles ;;
  finaliseConfiguration dns.

(** lines 27-30, 32-35, 39-42: the locals of [generateLancacheDNS]. *)
Definition useGenericCache : string :=
  if negb (String.eqb (os.Getenv environ "USE_GENERIC_CACHE") "")
  then os.Getenv environ "USE_GENERIC_CACHE" else "false".

Definition lancacheDNSDomain : string :=
  if negb (String.eqb (os.Getenv environ "LANCACHE_DNSDOMAIN") "cache.lancache.net")
  then os.Getenv environ "LANCACHE_DNSDOMAIN" else "cache.lancache.net".

Definition upstreamDNS : string :=
  if negb (String.eqb (os.Getenv environ "UPSTREAM_DNS") "8.8.8.8")
  then os.Getenv environ "UPSTREAM_DNS" else "8.8.8.8".

(** line 37: the local [cacheZone]. *)
Definition cacheZoneOf (lancacheDNSDomain : string) : string :=
  zonePath +:+ lancacheDNSDomain +:+ ".db".

(** lines 37-64, after the three locals are set. *)
Definition generateLancacheDNS_from (now : Z)
    (useGenericCache lancacheDNSDomain upstreamDNS : string) : IO unit :=
  let cacheZone := cacheZoneOf lancacheDNSDomain in
  let dns := cleanIP upstreamDNS in
  check (isIP dns) ;;
  writeResolverConfiguration dns ;;
  bootstrapDNS ;;
  let cacheIP := os.Getenv environ "LANCACHE_IP" in
  check (checkGenericCache useGenericCache cacheIP) ;;
  generateConfiguration now useGenericCache lancacheDNSDomain cacheIP
    cacheZone dns.

(** lines 26-65; an [Err] outcome is the [log.Fatal] exit. *)
Definition generateLancacheDNS (now : Z) : IO unit :=
  generateLancacheDNS_from now useGenericCache lancacheDNSDomain upstreamDNS.

End Program.

(** ** A deployment to run the program on *)

Module Sample.

(** Splits at the bytes that [sep] accepts and drops the empty pieces. *)
Fixpoint fields_go (sep : ascii -> bool) (s cur : string) : list string :=
  match s with
  | EmptyString => if String.eqb cur "" then [] else [cur]
  | String c s' =>
      if sep c then
        if String.eqb cur "" then fields_go sep s' ""
        else cur :: fields_go sep s' ""
      else fields_go sep s' (cur +:+ String c "")
  end.

Definition digit (c : ascii) : option N :=
  let n := N_of_ascii c in
  if (48 <=? n)%N && (n <=? 57)%N then Some (n - 48)%N else None.

Fixpoint number_go (s : string) (acc : N) : option N :=
  match s with
  | EmptyString => Some acc
  | String c s' =>
      match digit c with
      | Some d => number_go s' (10 * acc + d)%N
      | None => None
      end
  end.

(** A decimal octet: one to three digits, at most 255. *)
Definition octet (s : string) : option N :=
  if String.eqb s "" || (3 <? String.length s)%nat then None
  else match number_go s 0 with
       | Some n => if (n <=? 255)%N then Some n else None
       | None => None
       end.

(** A dotted quad. *)
Definition parseIPv4 (s : string) : option (N * N * N * N) :=
  match strings.Split s "."%char with
  | [a; b; c; d] =>
      match octet a, octet b, octet c, octet d with
      | Some a, Some b, Some c, Some d => Some (a, b, c, d)
      | _, _, _, _ => None
      end
  | _ => None
  end.

(** RFC 1918, loopback and link-local ranges. *)
Definition private (ip : N * N * N * N) : bool :=
  let '(a, b, _, _) := ip in
  (a =? 10)%N
  || ((a =? 172)%N && (16 <=? b)%N && (b <=? 31)%N)
  || ((a =? 192)%N && (b =? 168)%N)
  || (a =? 127)%N
  || ((a =? 169)%N && (b =? 254)%N).

Fixpoint firstError (ok : string -> bool) (what : string) (ips : list string)
  : error :=
  match ips with
  | [] => None
  | ip :: rest => if ok ip then firstError ok what rest
                  else Some (what +:+ ip)
  end.

(** Modelled from the spec: the IP helpers ([cleanIP], [isIP],
    [isPrivateIP], [reverseIPv4]) and the package constants are declared
    in files of the package other than lancache-dns.go.  This instance
    follows section 4.1 and the passthrough example of section 8 of the
    specification for IPv4 addresses: lists are split at white space and
    commas, an address is valid when it is a dotted quad, private when
    in an RFC 1918, loopback or link-local range, and reversed octet by
    octet.  The paths and file bodies are those of a typical container. *)
Definition package : Package := {|
  zonePath := "/etc/bind/cache/";
  rpzZone := "/etc/bind/cache/rpz.db";
  cacheConf := "/etc/bind/cache.conf";
  customZone := "/etc/bind/cache/custom.db";
  namedConf := "/etc/bind/named.conf.options";
  domainsPath := "/opt/cache-domains";
  cacheDomain := "cache_domains.json";
  cacheConfTemplate := "zone 'cache.lancache.net' in { type master; };";
  rpzTemplate := "$TTL 60";
  fmtCacheTemplate := fun domain serial =>
    "$ORIGIN " +:+ domain +:+ "." +:+ nl +:+
    "@ IN SOA localhost. dns.lancache.net. " +:+ serial +:+ " 604800 600 600 600"
    +:+ nl;
  cleanIP := fun raw =>
    Some (fields_go (fun c => strings.isSpace c || Ascii.eqb c ","%char) raw "");
  isIP := fun ips =>
    firstError (fun ip => bool_decide (is_Some (parseIPv4 ip)))
      "not a valid IP address: " (range ips);
  isPrivateIP := fun ips =>
    firstError (fun ip => match parseIPv4 ip with
                          | Some q => private q
                          | None => false
                          end)
      "not a private IP address: " (range ips);
  reverseIPv4 := fun ip =>
    strings.Join (List.rev (strings.Split ip "."%char)) "."
|}.

Definition catalogJSON : string :=
  "{'cache_domains':[{'name':'steam','domain_files':['steam.txt']},{'name':'origin','domain_files':['origin.txt']}]}".

Definition catalog : CacheFile :=
  {| CacheDomains :=
       [ {| Name := "steam"; DomainFiles := ["steam.txt"] |};
         {| Name := "origin"; DomainFiles := ["origin.txt"] |} ] |}.

(** The decoder is right on the one catalog document used here and
    refuses everything else; git does nothing and succeeds. *)
Definition runtime : Runtime := {|
  jsonUnmarshal := fun doc =>
    if String.eqb doc catalogJSON then inr catalog
    else inl "invalid character looking for beginning of value";
  gitRun := fun _ fs => (fs, None)
|}.

(** The domain file of the specification's merge example: a comment, a
    blank line, one host name. *)
Definition steamFile : string :=
  "# comment" +:+ nl +:+ nl +:+ "store.steampowered.com" +:+ nl.

Definition disk : gmap string string :=
  <["/opt/cache-domains/cache_domains.json" := catalogJSON]>
    (<["/opt/cache-domains/steam.txt" := steamFile]>
       (<["/opt/cache-domains/origin.txt" := "origin.com" +:+ nl]>
          (<["/etc/bind/named.conf.options" :=
               "#ENABLE_UPSTREAM_DNS#forwarders { dns_ip; };"]> ∅))).

(** Generic mode: one address for every service, steam switched off. *)
Definition genericEnv : gmap string string :=
  <["USE_GENERIC_CACHE" := "true"]>
    (<["LANCACHE_IP" := "10.0.0.5"]>
       (<["DISABLE_STEAM" := "true"]>
          (<["LANCACHE_DNSDOMAIN" := "cache.lancache.net"]>
             (<["UPSTREAM_DNS" := "8.8.8.8"]> ∅)))).

(** Per-service mode: only steam has an address. *)
Definition steamEnv : gmap string string :=
  <["STEAMCACHE_IP" := "10.0.0.9"]>
    (<["LANCACHE_DNSDOMAIN" := "cache.lancache.net"]>
       (<["UPSTREAM_DNS" := "8.8.8.8"]> ∅)).

(** The cache zone of the domain cache.lancache.net. *)
Definition cacheZone : string := "/etc/bind/cache/cache.lancache.net.db".

(** The disk with zone files left by an earlier run and a custom zone
    written by the operator. *)
Definition usedDisk : gmap string string :=
  <["/etc/bind/cache/rpz.db" := "old policy"]>
    (<["/etc/bind/cache/cache.lancache.net.db" := "old zone"]>
       (<["/etc/bind/cache/custom.db" := "operator records"]> disk)).

(** A catalog whose second entry has no domain file. *)
Definition brokenCatalog : CacheFile :=
  {| CacheDomains :=
       [ {| Name := "steam"; DomainFiles := ["steam.txt"; "steam2.txt"] |};
         {| Name := "origin"; DomainFiles := [] |} ] |}.

(** Per-service mode with a public address for steam. *)
Definition publicEnv : gmap string string :=
  <["STEAMCACHE_IP" := "8.8.8.8"]> ∅.

(** An operator passthrough address. *)
Definition passthruEnv : gmap string string :=
  <["PASSTHRU_IPS" := "203.0.113.5"]> ∅.

End Sample.

(** ** Deployments that go wrong *)

Module Faulty.

(** A host without network: every git command fails. *)
Definition offline : Runtime := {|
  jsonUnmarshal := @jsonUnmarshal Sample.runtime;
  gitRun := fun _ fs => (fs, Some "exit status 128")
|}.

(** Per-service mode, the steam address declared as a blank. *)
Definition blankEnv : gmap string string :=
  <["STEAMCACHE_IP" := " "]> ∅.

(** Per-service mode, the steam address declared and empty. *)
Definition emptyEnv : gmap string string :=
  <["STEAMCACHE_IP" := ""]> ∅.

(** An upstream DNS that is a host name. *)
Definition namedUpstreamEnv : gmap string string :=
  <["UPSTREAM_DNS" := "dns.example.net"]> ∅.

(** An operator passthrough address with an octet missing. *)
Definition shortPassthruEnv : gmap string string :=
  <["PASSTHRU_IPS" := "203.0.113"]> ∅.

(** A disk with old zone files and nothing else. *)
Definition bareDisk : gmap string string :=
  <["/etc/bind/cache/rpz.db" := "old policy"]>
    (<["/etc/bind/cache/cache.lancache.net.db" := "old zone"]> ∅).

(** A resolver template already filled in. *)
Definition filledDisk : gmap string string :=
  <["/etc/bind/named.conf.options" := "forwarders { 8.8.8.8; };"]> ∅.

End Faulty.

(** ** Vocabulary of the statements *)

(** What a reader of [path] finds; a missing file reads as empty. *)
Definition content (fs : gmap string string) (path : string) : string :=
  default "" (fs !! path).

(** [fs'] is [fs] after some text was appended to some files (and some
    missing files were created): nothing was truncated or rewritten. *)
Definition appended (fs fs' : gmap string string) : Prop :=
  ∀ path, ∃ text, content fs' path = content fs path +:+ text.

(** A computation that only appends. *)
Definition appends {A} (m : IO A) : Prop :=
  ∀ fs, appended fs (m fs).1.

(** A computation that leaves the file at [path] alone. *)
Definition preserves {A} (path : string) (m : IO A) : Prop :=
  ∀ fs, (m fs).1 !! path = fs !! path.

(** The pieces of text laid end to end. *)
Definition joined (pieces : list string) : string :=
  List.fold_right String.append "" pieces.

Section Records.

Context `{Package}.

(** The rewrite record of one domain line, with its line feed. *)
Definition rewriteRecord (lancacheDNSDomain service line : string) : string :=
  strings.TrimSpace line +:+ " IN CNAME " +:+ service +:+ "."
    +:+ lancacheDNSDomain +:+ ".;" +:+ nl.

(** The rewrite records of the lines that do not start with '#'. *)
Definition rewriteText (lines : list string)
    (lancacheDNSDomain service : string) : string :=
  joined (List.map (rewriteRecord lancacheDNSDomain service)
            (List.filter (fun line => negb (strings.HasPrefix line "#")) lines)).

(** The same following the specification's words: the lines that are
    neither comments nor blank. *)
Definition rewriteText_spec (lines : list string)
    (lancacheDNSDomain service : string) : string :=
  joined (List.map (rewriteRecord lancacheDNSDomain service)
            (List.filter
               (fun line => negb (strings.HasPrefix line "#")
                            && negb (String.eqb (strings.TrimSpace line) ""))
               lines)).

(** The passthrough record of a service address (line 361) and of an
    operator address (line 450). *)
Definition serviceRecord (ip : string) : string :=
  "32." +:+ reverseIPv4 ip +:+ ".rpz-client-ip      CNAME rpz-passthru.;".

Definition operatorRecord (ip : string) : string :=
  "32." +:+ reverseIPv4 ip +:+ ".rpz-client-ip      CNAME rpz-passthru.".

(** What the address loop of a service writes to the cache zone and to
    the RPZ file. *)
Definition addressText (service : string) (ips : list string) : string :=
  joined (List.map (fun ip => service +:+ " IN A " +:+ ip +:+ ";" +:+ nl) ips).

Definition serviceText (ips : list string) : string :=
  joined (List.map (fun ip => serviceRecord ip +:+ nl) ips).

(** What the finalizer writes for the operator addresses. *)
Definition passthruText (ips : list string) : string :=
  joined (List.map
            (fun ip => ";## Additional RPZ passthroughs" +:+ nl
                         +:+ operatorRecord ip +:+ nl) ips).

(** The operator addresses the finalizer goes through. *)
Definition passthruIPs (environ : gmap string string) : list string :=
  if String.eqb (os.Getenv environ "PASSTHRU_IPS") "" then []
  else range (cleanIP (os.Getenv environ "PASSTHRU_IPS")).

(** The first domain file of a catalog entry, when it has one. *)
Definition firstFile (entry : CacheDomain) : option string :=
  List.head (DomainFiles entry).

(** A file of the catalog directory. *)
Definition domainsFile (name : string) : string :=
  domainsPath +:+ "/" +:+ name.

(** Two file systems with the same generated records: the RPZ files are
    the same, and the cache zones are the headers [h1] and [h2] followed
    by the same records. *)
Definition sameRecords (cacheZone h1 h2 : string)
    (fs1 fs2 : gmap string string) : Prop :=
  (∃ rpz, fs1 !! rpzZone = Some rpz ∧ fs2 !! rpzZone = Some rpz)
  ∧ (∃ body, fs1 !! cacheZone = Some (h1 +:+ body)
             ∧ fs2 !! cacheZone = Some (h2 +:+ body)).

(** Two file systems in the same state as far as zone generation goes:
    the catalog directory is the same and so are the records. *)
Definition sameZones (cacheZone h1 h2 : string)
    (fs1 fs2 : gmap string string) : Prop :=
  (∀ name, fs1 !! domainsFile name = fs2 !! domainsFile name)
  ∧ sameRecords cacheZone h1 h2 fs1 fs2.

(** A computation that keeps two such file systems in step: the same
    outcome, and file systems in the same state again. *)
Definition inStep {A} (cacheZone h1 h2 : string) (m : IO A) : Prop :=
  ∀ fs1 fs2, sameZones cacheZone h1 h2 fs1 fs2 →
    sameZones cacheZone h1 h2 (m fs1).1 (m fs2).1 ∧ (m fs1).2 = (m fs2).2.

(** A computation that, run on two such file systems, leaves the same
    records, whatever its two outcomes. *)
Definition sameOutput {A} (cacheZone h1 h2 : string) (m : IO A) : Prop :=
  ∀ fs1 fs2, sameZones cacheZone h1 h2 fs1 fs2 →
    sameRecords cacheZone h1 h2 (m fs1).1 (m fs2).1.

(** A computation that never panics. *)
Definition noPanic {A} (m : IO A) : Prop :=
  ∀ fs msg, (m fs).2 ≠ Panic msg.

(** What [writeResolverConfiguration] leaves in /etc/resolv.conf. *)
Definition resolverText (dns : list string) : string :=
  "# Lancache dns config" +:+ nl
    +:+ joined (List.map (fun d => "nameserver " +:+ d +:+ nl) dns).

(** The addresses of a service of the catalog. *)
Definition serviceAddresses (environ : gmap string string)
    (cacheIP service : string) : list string :=
  range (cleanIP (serviceIP environ cacheIP (strings.ToUpper service))).

(** What a service of the catalog adds to the cache zone. *)
Definition zoneBlock (environ : gmap string string)
    (genericCache cacheIP service : string) : string :=
  if enabled environ genericCache (strings.ToUpper service)
  then addressText (strings.ToLower service)
         (serviceAddresses environ cacheIP service)
  else "".

(** What a service of the catalog adds to the RPZ zone: its delimiter, its
    passthrough records and, when it has an address, the rewrite records
    of its domain file as [fs] holds it. *)
Definition rpzBlock (environ : gmap string string)
    (genericCache cacheIP lancacheDNSDomain : string)
    (fs : gmap string string) (service file : string) : string :=
  if enabled environ genericCache (strings.ToUpper service)
  then ";## " +:+ strings.ToLower service +:+ nl
         +:+ serviceText (serviceAddresses environ cacheIP service)
         +:+ match serviceAddresses environ cacheIP service with
             | [] => ""
             | _ => rewriteText (bufio.ReadLines (content fs (domainsFile file)))
                      lancacheDNSDomain (strings.ToLower service)
             end
  else "".

(** A service that [generateService] handles without error: when it is
    enabled it has an address string, its addresses are private, and its
    domain file is there if it has an address. *)
Definition serviceReady (environ : gmap string string)
    (genericCache cacheIP : string) (fs : gmap string string)
    (service file : string) : Prop :=
  enabled environ genericCache (strings.ToUpper service) = true →
  serviceIP environ cacheIP (strings.ToUpper service) ≠ ""
  ∧ isPrivateIP (cleanIP (serviceIP environ cacheIP (strings.ToUpper service)))
    = None
  ∧ (serviceAddresses environ cacheIP service ≠ [] →
     is_Some (fs !! domainsFile file)).

(** [old] occurs somewhere in [s]. *)
Definition occursIn (old s : string) : Prop :=
  ∃ before after, s = before +:+ old +:+ after.

(** A line of a text file as domain lists have them: shorter than the
    read buffer, without line feed or carriage return. *)
Definition plainLine (line : string) : Prop :=
  (String.length line < bufio.defaultBufSize)%nat
  ∧ Forall (λ c, c ≠ LF ∧ c ≠ CR) (list_ascii_of_string line).

(** The file made of the lines, each ended by a line feed. *)
Definition unlines (lines : list string) : string :=
  joined (List.map (fun line => line +:+ nl) lines).

(** The same file with the last line feed missing. *)
Definition unlines_open (lines : list string) (last : string) : string :=
  unlines lines +:+ last.

(** Whether [old] occurs somewhere in [s], by trying every position. *)
Fixpoint occursb (old s : string) : bool :=
  String.prefix old s
  || match s with
     | String _ s' => occursb old s'
     | EmptyString => false
     end.

(** The file made of the lines, each ended by carriage return and line
    feed. *)
Definition unlines_crlf (lines : list string) : string :=
  joined (List.map (fun line => line +:+ String CR nl) lines).

End Records.

(** ** Strings *)

Lemma app_cons_s (x : ascii) (a b : string) :
  String x a +:+ b = String x (a +:+ b).
Proof. reflexivity. Qed.

Lemma app_assoc_s (a b c : string) : (a +:+ b) +:+ c = a +:+ (b +:+ c).
Proof.
  induction a as [|x a IH]; [done|]. rewrite !app_cons_s. by rewrite IH.
Qed.

Lemma app_nil_r_s (a : string) : a +:+ "" = a.
Proof. induction a as [|x a IH]; [done|]. by rewrite app_cons_s, IH. Qed.

Lemma length_app_s (a b : string) :
  String.length (a +:+ b) = (String.length a + String.length b)%nat.
Proof.
  induction a as [|x a IH]; [done|]. rewrite app_cons_s. simpl. by rewrite IH.
Qed.

Lemma app_fixed_s (a b : string) : a = a +:+ b → b = "".
Proof.
  intros E. apply (f_equal String.length) in E. rewrite length_app_s in E.
  destruct b; [done | simpl in E; lia].
Qed.

Lemma eqb_true_s (a b : string) : (a =? b)%string = true ↔ a = b.
Proof. apply String.eqb_eq. Qed.

Lemma eqb_false_s (a b : string) : (a =? b)%string = false ↔ a ≠ b.
Proof. apply String.eqb_neq. Qed.

(** ** The file system operations *)

Lemma content_insert_eq fs path text : content (<[path := text]> fs) path = text.
Proof. unfold content. by rewrite lookup_insert_eq. Qed.

Lemma content_insert_ne fs path path' text :
  path ≠ path' → content (<[path := text]> fs) path' = content fs path'.
Proof. intros. unfold content. by rewrite lookup_insert_ne. Qed.

Lemma appended_refl fs : appended fs fs.
Proof. intros path. exists "". by rewrite app_nil_r_s. Qed.

Lemma appended_trans fs1 fs2 fs3 :
  appended fs1 fs2 → appended fs2 fs3 → appended fs1 fs3.
Proof.
  intros A B path. destruct (A path) as [t Et], (B path) as [u Eu].
  exists (t +:+ u). by rewrite Eu, Et, app_assoc_s.
Qed.

Lemma OpenAppend_content path fs p :
  content (OpenAppend path fs).1 p = content fs p.
Proof.
  unfold OpenAppend. destruct (fs !! path) eqn:E; simpl; [done|].
  destruct (decide (path = p)) as [->|N].
  - rewrite content_insert_eq. unfold content. by rewrite E.
  - by rewrite content_insert_ne.
Qed.

Lemma preserves_OpenAppend_same path fs :
  default "" ((OpenAppend path fs).1 !! path) = default "" (fs !! path).
Proof. apply OpenAppend_content. Qed.

Lemma OpenAppend_ok path fs : (OpenAppend path fs).2 = Ok tt.
Proof. unfold OpenAppend. by destruct (fs !! path). Qed.

Lemma Fprint_same path text fs :
  content (Fprint path text fs).1 path = content fs path +:+ text.
Proof. unfold Fprint. simpl. by rewrite content_insert_eq. Qed.

Lemma Fprint_other path text fs p :
  path ≠ p → content (Fprint path text fs).1 p = content fs p.
Proof. intros. unfold Fprint. simpl. by rewrite content_insert_ne. Qed.

Lemma appends_ret {A} (a : A) : appends (ret a).
Proof. intros fs. apply appended_refl. Qed.

Lemma appends_fail {A} msg : appends (@fail A msg).
Proof. intros fs. apply appended_refl. Qed.

Lemma appends_panic {A} msg : appends (@panic A msg).
Proof. intros fs. apply appended_refl. Qed.

Lemma appends_check e : appends (check e).
Proof. destruct e; [apply appends_fail | apply appends_ret]. Qed.

Lemma appends_bind {A B} (m : IO A) (k : A → IO B) :
  appends m → (∀ a, appends (k a)) → appends (bind m k).
Proof.
  intros Hm Hk fs. unfold bind. specialize (Hm fs).
  destruct (m fs) as [fs' [a|msg|msg]]; simpl in *; [|done..].
  eapply appended_trans; [exact Hm | apply Hk].
Qed.

Lemma appends_OpenAppend path : appends (OpenAppend path).
Proof.
  intros fs p. exists "". by rewrite OpenAppend_content, app_nil_r_s.
Qed.

Lemma appends_Fprint path text : appends (Fprint path text).
Proof.
  intros fs p. destruct (decide (path = p)) as [->|N].
  - exists text. apply Fprint_same.
  - exists "". by rewrite Fprint_other, app_nil_r_s.
Qed.

Lemma appends_Fprintln path text : appends (Fprintln path text).
Proof. apply appends_Fprint. Qed.

Lemma appends_ReadFile path : appends (ReadFile path).
Proof.
  intros fs. unfold ReadFile. destruct (fs !! path); apply appended_refl.
Qed.

Create HintDb appends discriminated.
#[local] Hint Resolve appends_ret appends_fail appends_panic appends_check
  appends_OpenAppend appends_Fprint appends_Fprintln appends_ReadFile : appends.
#[local] Hint Extern 2 (appends (bind _ _)) =>
  apply appends_bind; [|intros ?] : appends.

Lemma appended_length fs fs' path :
  appended fs fs' →
  (String.length (content fs path) ≤ String.length (content fs' path))%nat.
Proof. intros A. destruct (A path) as [t ->]. rewrite length_app_s. lia. Qed.

Lemma bind_OpenAppend {B} path (k : unit → IO B) fs :
  bind (OpenAppend path) k fs = k tt (OpenAppend path fs).1.
Proof. unfold bind, OpenAppend. by destruct (fs !! path). Qed.

Lemma bind_Fprint {B} path text (k : unit → IO B) fs :
  bind (Fprint path text) k fs = k tt (Fprint path text fs).1.
Proof. reflexivity. Qed.

Lemma bind_Fprintln {B} path text (k : unit → IO B) fs :
  bind (Fprintln path text) k fs = k tt (Fprint path (text +:+ nl) fs).1.
Proof. reflexivity. Qed.

Lemma bind_ret {A B} (a : A) (k : A → IO B) fs : bind (ret a) k fs = k a fs.
Proof. reflexivity. Qed.

Lemma bind_fail {A B} msg (k : A → IO B) fs :
  bind (fail msg) k fs = (fs, Err msg).
Proof. reflexivity. Qed.

(** ** Services *)

Section Services.

Context `{Package}.
Variable environ : gmap string string.

Lemma appends_generateDomains_loop lines dom service :
  appends (generateDomains_loop lines dom service).
Proof.
  induction lines as [|line rest IH]; simpl; [auto with appends|].
  destruct (strings.HasPrefix line "#"); auto with appends.
Qed.

Lemma appends_generateDomains file dom service :
  appends (generateDomains file dom service).
Proof.
  unfold generateDomains.
  auto using appends_generateDomains_loop with appends.
Qed.

Lemma appends_generateService_loop ips cacheZone service populate :
  appends (generateService_loop ips cacheZone service populate).
Proof.
  revert populate. induction ips as [|ip rest IH]; intros populate; simpl;
    auto 10 with appends.
Qed.

Lemma appends_enableService ip cacheZone dom service file :
  appends (enableService ip cacheZone dom service file).
Proof.
  unfold enableService.
  repeat (apply appends_bind; [|intros ?]);
    auto using appends_generateService_loop with appends.
  destruct a2; auto using appends_generateDomains with appends.
Qed.

Lemma appends_generateService g cacheIP cacheZone dom service file :
  appends (generateService environ g cacheIP cacheZone dom service file).
Proof.
  unfold generateService.
  destruct (enabled _ _ _); [|auto with appends].
  destruct (negb _); auto using appends_enableService with appends.
Qed.

(** An enabled service with an address leaves its delimiter in the RPZ
    file, whatever happens next. *)
Lemma enableService_delimiter ip cacheZone dom service file fs :
  ∃ text,
    content (enableService ip cacheZone dom service file fs).1 rpzZone
    = content fs rpzZone
        +:+ (";## " +:+ strings.ToLower service +:+ nl) +:+ text.
Proof.
  unfold enableService. rewrite bind_OpenAppend, bind_Fprintln.
  set (fs2 := (Fprint _ _ _).1).
  set (rest := bind _ _).
  assert (appends rest) as A.
  { subst rest. apply appends_bind; [auto with appends|intros ?].
    apply appends_bind; [apply appends_generateService_loop|intros []];
      auto using appends_generateDomains with appends. }
  destruct (A fs2 rpzZone) as [text E]. exists text.
  rewrite E. subst fs2. rewrite Fprint_same, OpenAppend_content.
  by rewrite app_assoc_s.
Qed.

Lemma enableService_changes ip cacheZone dom service file fs :
  (enableService ip cacheZone dom service file fs).1 ≠ fs.
Proof.
  intros E.
  destruct (enableService_delimiter ip cacheZone dom service file fs)
    as [text D].
  rewrite E in D. apply app_fixed_s in D. discriminate D.
Qed.

(** C1. The enablement decision of [generateService]: in generic mode
    ([genericCache] is "true") a service is enabled unless
    DISABLE_<SERVICE> is exactly "true"; otherwise it is enabled exactly
    when <SERVICE>CACHE_IP is present in the environment, whatever its
    value.  A service that is not enabled is skipped: the call returns
    nil and leaves the file system as it was, which an enabled service
    never does. *)
Theorem enablement_decision
    (genericCache cacheIP cacheZone dom service file : string)
    (fs : gmap string string) :
  (genericCache = "true" →
     (enabled environ genericCache (strings.ToUpper service) = true
      ↔ os.Getenv environ ("DISABLE_" +:+ strings.ToUpper service) ≠ "true"))
  ∧ (genericCache ≠ "true" →
     (enabled environ genericCache (strings.ToUpper service) = true
      ↔ is_Some (environ !! (strings.ToUpper service +:+ "CACHE_IP"))))
  ∧ (enabled environ genericCache (strings.ToUpper service) = false
     ↔ generateService environ genericCache cacheIP cacheZone dom service
         file fs = (fs, Ok tt)).
Proof.
  split; [|split].
  - intros ->. unfold enabled. simpl.
    rewrite negb_true_iff. apply eqb_false_s.
  - intros N. unfold enabled, os.LookupEnv.
    apply eqb_false_s in N. rewrite N.
    destruct (environ !! _) as [v|]; split; intros Q; done.
  - unfold generateService.
    destruct (enabled _ _ _); split; intros Q; try done.
    exfalso. destruct (negb _); [|discriminate Q].
    apply (enableService_changes
             (serviceIP environ cacheIP (strings.ToUpper service))
             cacheZone dom (strings.ToUpper service) file fs).
    by rewrite Q.
Qed.

End Services.

Section Resolution.

Context `{Package}.
Variable environ : gmap string string.

(** C2. [checkGenericCache] returns nil only in the two valid
    configurations, generic mode with a global cache IP or per-service
    mode without one; generic mode without a global IP and per-service
    mode with one are each refused with a configuration error.  In
    generic mode the global IP must also pass the private-range check. *)
Theorem checkGenericCache_configurations (useGenericCache cacheIP : string) :
  (checkGenericCache useGenericCache cacheIP = None →
     (useGenericCache = "true" ∧ cacheIP ≠ "")
     ∨ (useGenericCache ≠ "true" ∧ cacheIP = ""))
  ∧ (useGenericCache = "true" → cacheIP = "" →
     checkGenericCache useGenericCache cacheIP
     = Some "If you are using USE_GENERIC_CACHE then you must set LANCACHE_IP")
  ∧ (useGenericCache ≠ "true" → cacheIP ≠ "" →
     checkGenericCache useGenericCache cacheIP
     = Some "If you are using LANCACHE_IP then you must set USE_GENERIC_CACHE=true")
  ∧ (useGenericCache = "true" → cacheIP ≠ "" →
     checkGenericCache useGenericCache cacheIP = isPrivateIP (cleanIP cacheIP))
  ∧ (useGenericCache ≠ "true" → cacheIP = "" →
     checkGenericCache useGenericCache cacheIP = None).
Proof.
  unfold checkGenericCache.
  destruct (String.eqb_spec useGenericCache "true") as [G|G],
           (String.eqb_spec cacheIP "") as [E|E]; simpl;
    repeat split; intros; try congruence; auto.
Qed.

(** C3. For an enabled service the address list that is parsed is the
    <SERVICE>CACHE_IP value when it is not empty and the global cache IP
    otherwise; with both empty [generateService] fails with an error
    whose message ends in the (upper-cased) name of the service. *)
Theorem resolved_ip (genericCache cacheIP cacheZone dom service file : string)
    (fs : gmap string string) :
  enabled environ genericCache (strings.ToUpper service) = true →
  (os.Getenv environ (strings.ToUpper service +:+ "CACHE_IP") ≠ "" →
     generateService environ genericCache cacheIP cacheZone dom service file fs
     = enableService
         (os.Getenv environ (strings.ToUpper service +:+ "CACHE_IP"))
         cacheZone dom (strings.ToUpper service) file fs)
  ∧ (os.Getenv environ (strings.ToUpper service +:+ "CACHE_IP") = "" →
     cacheIP ≠ "" →
     generateService environ genericCache cacheIP cacheZone dom service file fs
     = enableService cacheIP cacheZone dom (strings.ToUpper service) file fs)
  ∧ (os.Getenv environ (strings.ToUpper service +:+ "CACHE_IP") = "" →
     cacheIP = "" →
     generateService environ genericCache cacheIP cacheZone dom service file fs
     = (fs, Err ("Could not find IP for requested service: "
                   +:+ strings.ToUpper service))).
Proof.
  intros En. unfold generateService, serviceIP. rewrite En.
  destruct (String.eqb_spec
              (os.Getenv environ (strings.ToUpper service +:+ "CACHE_IP")) "")
    as [O|O]; simpl.
  - rewrite O. repeat split; intros; try congruence.
    + destruct (String.eqb_spec cacheIP ""); [congruence | done].
    + subst cacheIP. done.
  - repeat split; intros; try congruence.
    destruct (String.eqb_spec
                (os.Getenv environ (strings.ToUpper service +:+ "CACHE_IP")) "");
      [congruence | done].
Qed.

End Resolution.

(** ** Files left alone *)

Lemma preserves_ret {A} p (a : A) : preserves p (ret a).
Proof. done. Qed.

Lemma preserves_fail {A} p msg : preserves p (@fail A msg).
Proof. done. Qed.

Lemma preserves_panic {A} p msg : preserves p (@panic A msg).
Proof. done. Qed.

Lemma preserves_check p e : preserves p (check e).
Proof. by destruct e. Qed.

Lemma preserves_bind {A B} p (m : IO A) (k : A → IO B) :
  preserves p m → (∀ a, preserves p (k a)) → preserves p (bind m k).
Proof.
  intros Hm Hk fs. unfold bind. specialize (Hm fs).
  destruct (m fs) as [fs' [a|msg|msg]]; simpl in *; [|done..].
  by rewrite Hk.
Qed.

Lemma preserves_Create p path : path ≠ p → preserves p (Create path).
Proof. intros N fs. simpl. by rewrite lookup_insert_ne. Qed.

Lemma preserves_OpenAppend p path : path ≠ p → preserves p (OpenAppend path).
Proof.
  intros N fs. unfold OpenAppend. destruct (fs !! path); simpl; [done|].
  by rewrite lookup_insert_ne.
Qed.

Lemma preserves_Fprint p path text : path ≠ p → preserves p (Fprint path text).
Proof. intros N fs. simpl. by rewrite lookup_insert_ne. Qed.

Lemma preserves_Fprintln p path text :
  path ≠ p → preserves p (Fprintln path text).
Proof. apply preserves_Fprint. Qed.

Lemma preserves_WriteFile p path data :
  path ≠ p → preserves p (WriteFile path data).
Proof. intros N fs. simpl. by rewrite lookup_insert_ne. Qed.

Lemma preserves_ReadFile p path : preserves p (ReadFile path).
Proof. intros fs. unfold ReadFile. by destruct (fs !! path). Qed.

Lemma preserves_NotExist p path : preserves p (NotExist path).
Proof. done. Qed.

Lemma preserves_content {A} p (m : IO A) fs :
  preserves p m → content (m fs).1 p = content fs p.
Proof. intros P. unfold content. by rewrite P. Qed.

Create HintDb preserves discriminated.
#[local] Hint Resolve preserves_ret preserves_fail preserves_panic
  preserves_check preserves_Create preserves_OpenAppend preserves_Fprint
  preserves_Fprintln preserves_WriteFile preserves_ReadFile
  preserves_NotExist : preserves.
#[local] Hint Extern 2 (preserves _ (bind _ _)) =>
  apply preserves_bind; [|intros ?] : preserves.

Lemma joined_cons piece pieces : joined (piece :: pieces) = piece +:+ joined pieces.
Proof. reflexivity. Qed.

(** ** Domain files *)

Section Domains.

Context `{Package}.

Lemma preserves_generateDomains_loop p lines dom service :
  rpzZone ≠ p → preserves p (generateDomains_loop lines dom service).
Proof.
  intros N. induction lines as [|line rest IH]; simpl; [auto with preserves|].
  destruct (strings.HasPrefix line "#"); auto with preserves.
Qed.

Lemma preserves_generateDomains p file dom service :
  rpzZone ≠ p → preserves p (generateDomains file dom service).
Proof.
  intros N. unfold generateDomains.
  auto using preserves_generateDomains_loop with preserves.
Qed.

(** The loop never fails and writes the records of the lines it keeps,
    in their order. *)
Lemma generateDomains_loop_writes lines dom service fs :
  (generateDomains_loop lines dom service fs).2 = Ok tt
  ∧ content (generateDomains_loop lines dom service fs).1 rpzZone
    = content fs rpzZone +:+ rewriteText lines dom service.
Proof.
  revert fs. induction lines as [|line rest IH]; intros fs; simpl.
  - split; [done|]. unfold rewriteText. simpl. by rewrite app_nil_r_s.
  - unfold rewriteText. simpl.
    destruct (strings.HasPrefix line "#"); simpl; [apply IH|].
    rewrite bind_Fprintln. destruct (IH (Fprint rpzZone
      ((strings.TrimSpace line +:+ " IN CNAME " +:+ service +:+ "."
          +:+ dom +:+ ".;") +:+ nl) fs).1) as [R C].
    split; [done|]. rewrite C, Fprint_same.
    unfold rewriteRecord, rewriteText. by rewrite !app_assoc_s.
Qed.

(** C4, as the code has it.  [generateDomains] appends to the RPZ zone,
    in file order, one record
    `<trimmed line> IN CNAME <service>.<dnsDomain>.;` for every line of
    the domain file that does not start with '#' (blank lines included:
    they give a record with an empty name), and touches no other file.
    The lines are those [ReadLine] returns; the domain file is a file
    other than the RPZ zone, so that it does not grow while it is read. *)
Theorem generateDomains_records (file dom service f : string)
    (fs : gmap string string) :
  fs !! domainsFile file = Some f →
  domainsFile file ≠ rpzZone →
  ∃ fs', generateDomains file dom service fs = (fs', Ok tt)
    ∧ content fs' rpzZone
      = content fs rpzZone +:+ rewriteText (bufio.ReadLines f) dom service
    ∧ ∀ p, p ≠ rpzZone → fs' !! p = fs !! p.
Proof.
  intros F _. unfold generateDomains, bind at 1, ReadFile.
  fold (domainsFile file). rewrite F, bind_OpenAppend.
  set (fs1 := (OpenAppend rpzZone fs).1).
  destruct (generateDomains_loop_writes (bufio.ReadLines f) dom service fs1)
    as [R C].
  exists (generateDomains_loop (bufio.ReadLines f) dom service fs1).1.
  split; [|split].
  - rewrite <- R. by destruct (generateDomains_loop _ _ _ _).
  - rewrite C. subst fs1. by rewrite OpenAppend_content.
  - intros p N. rewrite preserves_generateDomains_loop by done.
    subst fs1. by apply preserves_OpenAppend.
Qed.

End Domains.

(** ** The finalizer *)

Section Finalizer.

Context `{Package}.
Variable environ : gmap string string.

Lemma preserves_passthru_loop p ips :
  rpzZone ≠ p → preserves p (passthru_loop ips).
Proof.
  intros N. induction ips as [|ip rest IH]; simpl; auto 10 with preserves.
Qed.

Lemma passthru_loop_writes ips fs :
  (passthru_loop ips fs).2 = Ok tt
  ∧ content (passthru_loop ips fs).1 rpzZone
    = content fs rpzZone +:+ passthruText ips.
Proof.
  revert fs. induction ips as [|ip rest IH]; intros fs; simpl.
  - split; [done|]. unfold passthruText. simpl. by rewrite app_nil_r_s.
  - rewrite bind_OpenAppend, !bind_Fprintln.
    match goal with |- context [passthru_loop rest ?f] =>
      destruct (IH f) as [R C] end.
    split; [done|]. rewrite C, !Fprint_same, OpenAppend_content.
    unfold passthruText, operatorRecord. simpl. by rewrite !app_assoc_s.
Qed.

(** The passthrough stage, when the operator addresses are valid. *)
Lemma finalisePassthru_writes fs :
  os.Getenv environ "PASSTHRU_IPS" = ""
  ∨ isIP (cleanIP (os.Getenv environ "PASSTHRU_IPS")) = None →
  (finalisePassthru environ fs).2 = Ok tt
  ∧ content (finalisePassthru environ fs).1 rpzZone
    = content fs rpzZone +:+ passthruText (passthruIPs environ)
  ∧ ∀ p, rpzZone ≠ p → (finalisePassthru environ fs).1 !! p = fs !! p.
Proof.
  intros V. unfold finalisePassthru, passthruIPs.
  destruct (String.eqb_spec (os.Getenv environ "PASSTHRU_IPS") "") as [E|E];
    simpl.
  - repeat split; try done. unfold passthruText. simpl.
    by rewrite app_nil_r_s.
  - destruct V as [V|V]; [done|]. rewrite V. simpl. rewrite bind_ret.
    destruct (passthru_loop_writes
                (range (cleanIP (os.Getenv environ "PASSTHRU_IPS"))) fs)
      as [R C].
    repeat split; try done. intros p N. by apply preserves_passthru_loop.
Qed.

(** The custom zone stage, step by step. *)
Lemma finaliseCustomZone_steps fs :
  finaliseCustomZone fs
  = ((Fprint rpzZone (("$INCLUDE " +:+ customZone) +:+ nl)
        (OpenAppend rpzZone
           (match fs !! customZone with
            | Some _ => fs
            | None => <[customZone := ""]> fs
            end)).1).1, Ok tt).
Proof.
  unfold finaliseCustomZone, NotExist. unfold bind at 1.
  case_bool_decide as E.
  - rewrite E. unfold bind at 1, Create.
    by rewrite bind_OpenAppend.
  - destruct (fs !! customZone); [|done].
    by rewrite bind_ret, bind_OpenAppend.
Qed.

(** The custom zone stage: it never fails, the custom zone exists
    afterwards with the content it had, and the RPZ file gets the
    include line. *)
Lemma finaliseCustomZone_writes fs :
  rpzZone ≠ customZone →
  (finaliseCustomZone fs).2 = Ok tt
  ∧ (finaliseCustomZone fs).1 !! customZone = Some (content fs customZone)
  ∧ content (finaliseCustomZone fs).1 rpzZone
    = content fs rpzZone +:+ "$INCLUDE " +:+ customZone +:+ nl
  ∧ ∀ p, rpzZone ≠ p → customZone ≠ p →
      (finaliseCustomZone fs).1 !! p = fs !! p.
Proof.
  intros N. rewrite finaliseCustomZone_steps. simpl.
  split; [done|]. split; [|split].
  - rewrite lookup_insert_ne, preserves_OpenAppend by done.
    unfold content. destruct (fs !! customZone) eqn:E; simpl.
    + by rewrite E.
    + by rewrite lookup_insert_eq.
  - rewrite content_insert_eq.
    fold (content (OpenAppend rpzZone
            (match fs !! customZone with
             | Some _ => fs
             | None => <[customZone := ""]> fs
             end)).1 rpzZone).
    rewrite OpenAppend_content, app_assoc_s. f_equal.
    destruct (fs !! customZone); [done|]. by rewrite content_insert_ne.
  - intros p P Q. rewrite lookup_insert_ne, preserves_OpenAppend by done.
    destruct (fs !! customZone); [done|]. by rewrite lookup_insert_ne.
Qed.

Lemma preserves_finaliseNamedConf p dns :
  namedConf ≠ p → preserves p (finaliseNamedConf environ dns).
Proof.
  intros N. unfold finaliseNamedConf. destruct dns; auto with preserves.
Qed.

(** The finalizer, when the operator addresses are valid: the first two
    stages succeed, so it ends as its last stage does. *)
Lemma finaliseConfiguration_steps dns fs :
  os.Getenv environ "PASSTHRU_IPS" = ""
  ∨ isIP (cleanIP (os.Getenv environ "PASSTHRU_IPS")) = None →
  rpzZone ≠ customZone →
  finaliseConfiguration environ dns fs
  = finaliseNamedConf environ dns
      (finaliseCustomZone (finalisePassthru environ fs).1).1.
Proof.
  intros V N1.
  destruct (finalisePassthru_writes fs V) as (R1 & _).
  destruct (finaliseCustomZone_writes (finalisePassthru environ fs).1 N1)
    as (R2 & _).
  unfold finaliseConfiguration, bind.
  destruct (finalisePassthru environ fs) as [g1 r1].
  simpl in *. subst r1.
  destruct (finaliseCustomZone g1) as [g2 r2]. simpl in *. by subst r2.
Qed.

Lemma finaliseConfiguration_rpz dns fs :
  os.Getenv environ "PASSTHRU_IPS" = ""
  ∨ isIP (cleanIP (os.Getenv environ "PASSTHRU_IPS")) = None →
  rpzZone ≠ customZone → namedConf ≠ rpzZone →
  content (finaliseConfiguration environ dns fs).1 rpzZone
  = content fs rpzZone +:+ passthruText (passthruIPs environ)
      +:+ "$INCLUDE " +:+ customZone +:+ nl.
Proof.
  intros V N1 N3. rewrite finaliseConfiguration_steps by done.
  destruct (finalisePassthru_writes fs V) as (_ & Q1 & _).
  destruct (finaliseCustomZone_writes (finalisePassthru environ fs).1 N1)
    as (_ & _ & Q2 & _).
  rewrite (preserves_content _ _ _ (preserves_finaliseNamedConf _ dns N3)).
  by rewrite Q2, Q1, !app_assoc_s.
Qed.

Lemma finaliseConfiguration_custom dns fs :
  os.Getenv environ "PASSTHRU_IPS" = ""
  ∨ isIP (cleanIP (os.Getenv environ "PASSTHRU_IPS")) = None →
  rpzZone ≠ customZone → namedConf ≠ customZone →
  (finaliseConfiguration environ dns fs).1 !! customZone
  = Some (content fs customZone).
Proof.
  intros V N1 N2. rewrite finaliseConfiguration_steps by done.
  destruct (finalisePassthru_writes fs V) as (_ & _ & P1).
  destruct (finaliseCustomZone_writes (finalisePassthru environ fs).1 N1)
    as (_ & K2 & _).
  rewrite preserves_finaliseNamedConf, K2 by done.
  unfold content. by rewrite P1.
Qed.

End Finalizer.

(** ** The records of a service *)

Section ServiceRecords.

Context `{Package}.
Variable environ : gmap string string.

Lemma preserves_generateService_loop p ips cacheZone service populate :
  rpzZone ≠ p → cacheZone ≠ p →
  preserves p (generateService_loop ips cacheZone service populate).
Proof.
  intros N1 N2. revert populate.
  induction ips as [|ip rest IH]; intros populate; simpl;
    auto 10 with preserves.
Qed.

(** The address loop never fails; it sets [populate] as soon as there is
    an address, and writes one A record and one passthrough record per
    address, in order. *)
Lemma generateService_loop_writes ips cacheZone service populate fs :
  cacheZone ≠ rpzZone →
  (generateService_loop ips cacheZone service populate fs).2
    = Ok (match ips with [] => populate | _ => true end)
  ∧ content (generateService_loop ips cacheZone service populate fs).1 cacheZone
    = content fs cacheZone +:+ addressText service ips
  ∧ content (generateService_loop ips cacheZone service populate fs).1 rpzZone
    = content fs rpzZone +:+ serviceText ips.
Proof.
  intros N. revert populate fs.
  induction ips as [|ip rest IH]; intros populate fs; simpl.
  - unfold addressText, serviceText. simpl. by rewrite !app_nil_r_s.
  - rewrite bind_OpenAppend, bind_Fprintln, bind_OpenAppend, bind_Fprintln.
    match goal with |- context [generateService_loop rest _ _ _ ?f] =>
      destruct (IH true f) as (R & C & Z) end.
    split; [|split].
    + rewrite R. by destruct rest.
    + rewrite C. rewrite Fprint_other, OpenAppend_content by done.
      rewrite Fprint_same, OpenAppend_content.
      unfold addressText. simpl. by rewrite !app_assoc_s.
    + rewrite Z. rewrite Fprint_same, OpenAppend_content.
      rewrite Fprint_other, OpenAppend_content by done.
      unfold serviceText, serviceRecord. simpl. by rewrite !app_assoc_s.
Qed.

(** C6, as the code has it.  When the addresses of an enabled service
    fail the private-range check, [generateService] returns that error
    after it has written the `;## <service>` delimiter to the RPZ zone:
    the delimiter is the only thing written.  No A record, passthrough
    record or rewrite record is emitted, and every file other than the
    RPZ zone, the cache zone among them, is as it was. *)
Theorem invalid_service_writes
    (genericCache cacheIP cacheZone dom service file msg : string)
    (fs : gmap string string) :
  enabled environ genericCache (strings.ToUpper service) = true →
  serviceIP environ cacheIP (strings.ToUpper service) ≠ "" →
  isPrivateIP (cleanIP (serviceIP environ cacheIP (strings.ToUpper service)))
    = Some msg →
  ∃ fs',
    generateService environ genericCache cacheIP cacheZone dom service file fs
    = (fs', Err msg)
    ∧ content fs' rpzZone
      = content fs rpzZone
          +:+ ";## " +:+ strings.ToLower (strings.ToUpper service) +:+ nl
    ∧ ∀ p, p ≠ rpzZone → fs' !! p = fs !! p.
Proof.
  intros En Ip Bad. unfold generateService. rewrite En.
  apply eqb_false_s in Ip. rewrite Ip. simpl.
  unfold enableService. rewrite bind_OpenAppend, bind_Fprintln, Bad.
  simpl. rewrite bind_fail. eexists. split; [done|]. split.
  - rewrite content_insert_eq.
    fold (content (OpenAppend rpzZone fs).1 rpzZone).
    by rewrite OpenAppend_content, !app_assoc_s.
  - intros p N. by rewrite lookup_insert_ne, preserves_OpenAppend.
Qed.

End ServiceRecords.

(** ** What the finalizer leaves behind *)

Section FinalizerClaims.

Context `{Package}.
Variable environ : gmap string string.

(** C5, as the code has it.  For the operator addresses of PASSTHRU_IPS
    (once they pass [isIP]) the finalizer appends to the RPZ zone, per
    address and in order, the comment line
    `;## Additional RPZ passthroughs` and the record
    `32.<reversed>.rpz-client-ip      CNAME rpz-passthru.`, and then the
    include line.  The record is the per-service passthrough record
    without its closing `;`: the service loop writes the same text
    followed by `;`. *)
Theorem operator_passthrough_records (dns : slice) (cacheZone service : string)
    (fs : gmap string string) :
  os.Getenv environ "PASSTHRU_IPS" ≠ "" →
  isIP (cleanIP (os.Getenv environ "PASSTHRU_IPS")) = None →
  rpzZone ≠ customZone → namedConf ≠ rpzZone → cacheZone ≠ rpzZone →
  content (finaliseConfiguration environ dns fs).1 rpzZone
  = content fs rpzZone
      +:+ joined (List.map
                    (fun ip => ";## Additional RPZ passthroughs" +:+ nl
                                 +:+ operatorRecord ip +:+ nl)
                    (range (cleanIP (os.Getenv environ "PASSTHRU_IPS"))))
      +:+ "$INCLUDE " +:+ customZone +:+ nl
  ∧ ∀ ip populate fs0,
      content (generateService_loop [ip] cacheZone service populate fs0).1
        rpzZone
      = content fs0 rpzZone +:+ operatorRecord ip +:+ ";" +:+ nl.
Proof.
  intros Given Valid N1 N3 N4. split.
  - rewrite finaliseConfiguration_rpz by auto.
    unfold passthruIPs. apply eqb_false_s in Given. by rewrite Given.
  - intros ip populate fs0.
    destruct (generateService_loop_writes [ip] cacheZone service populate
                fs0 N4) as (_ & _ & Z).
    rewrite Z. unfold serviceText, serviceRecord, operatorRecord. simpl.
    by rewrite !app_assoc_s, app_nil_r_s.
Qed.

(** C8. The finalizer creates the custom zone file empty when it is
    missing and leaves its content as it is when it exists, and in both
    cases adds one `$INCLUDE <customZone>` line at the end of the RPZ
    zone, after the operator passthrough records.  This is the finalizer
    past the validation of PASSTHRU_IPS, with the custom zone, the RPZ
    zone and the resolver template being three different files. *)
Theorem custom_zone_kept (dns : slice) (fs : gmap string string) :
  os.Getenv environ "PASSTHRU_IPS" = ""
  ∨ isIP (cleanIP (os.Getenv environ "PASSTHRU_IPS")) = None →
  rpzZone ≠ customZone → namedConf ≠ customZone → namedConf ≠ rpzZone →
  (fs !! customZone = None →
     (finaliseConfiguration environ dns fs).1 !! customZone = Some "")
  ∧ (∀ zone, fs !! customZone = Some zone →
     (finaliseConfiguration environ dns fs).1 !! customZone = Some zone)
  ∧ ∃ passthrough,
      content (finaliseConfiguration environ dns fs).1 rpzZone
      = content fs rpzZone +:+ passthrough
          +:+ "$INCLUDE " +:+ customZone +:+ nl
      ∧ passthrough = passthruText (passthruIPs environ).
Proof.
  intros V N1 N2 N3.
  pose proof (finaliseConfiguration_custom environ dns fs V N1 N2) as K.
  unfold content in K. split; [|split].
  - intros E. by rewrite E in K.
  - intros zone E. by rewrite E in K.
  - eexists. split; [|done]. by apply finaliseConfiguration_rpz.
Qed.

End FinalizerClaims.

(** ** Regeneration *)

Section Regeneration.

Context `{Package} `{Runtime}.
Variable environ : gmap string string.
Variables cacheZone h1 h2 : string.

(** The cache zone and the RPZ zone are two files, outside the catalog
    directory. *)
Hypothesis zones_differ : cacheZone ≠ rpzZone.
Hypothesis cacheZone_generated : ∀ name, domainsFile name ≠ cacheZone.
Hypothesis rpzZone_generated : ∀ name, domainsFile name ≠ rpzZone.

(** Neither is the custom zone or the resolver template. *)
Hypothesis custom_rpz : customZone ≠ rpzZone.
Hypothesis custom_cacheZone : customZone ≠ cacheZone.
Hypothesis named_rpz : namedConf ≠ rpzZone.
Hypothesis named_cacheZone : namedConf ≠ cacheZone.

Abbreviation inStep := (inStep cacheZone h1 h2).
Abbreviation sameZones := (sameZones cacheZone h1 h2).
Abbreviation sameRecords := (sameRecords cacheZone h1 h2).
Abbreviation sameOutput := (sameOutput cacheZone h1 h2).

Lemma inStep_pure {A} (r : res A) : inStep (fun fs => (fs, r)).
Proof. by intros fs1 fs2 S. Qed.

Lemma inStep_ret {A} (a : A) : inStep (ret a).
Proof. apply inStep_pure. Qed.

Lemma inStep_fail {A} msg : inStep (@fail A msg).
Proof. apply inStep_pure. Qed.

Lemma inStep_panic {A} msg : inStep (@panic A msg).
Proof. apply inStep_pure. Qed.

Lemma inStep_check e : inStep (check e).
Proof. destruct e; apply inStep_pure. Qed.

Lemma inStep_bind {A B} (m : IO A) (k : A → IO B) :
  inStep m → (∀ a, inStep (k a)) → inStep (bind m k).
Proof.
  intros Hm Hk fs1 fs2 S. destruct (Hm fs1 fs2 S) as [S' R]. unfold bind.
  destruct (m fs1) as [g1 r1], (m fs2) as [g2 r2]. simpl in *. subst r2.
  destruct r1 as [a|msg|msg]; [by apply Hk | done..].
Qed.

Lemma inStep_OpenAppend_rpz : inStep (OpenAppend rpzZone).
Proof.
  intros fs1 fs2 S. pose proof S as (_ & (rpz & R1 & R2) & _).
  unfold OpenAppend. by rewrite R1, R2.
Qed.

Lemma inStep_OpenAppend_cacheZone : inStep (OpenAppend cacheZone).
Proof.
  intros fs1 fs2 S. pose proof S as (_ & _ & (body & Q1 & Q2)).
  unfold OpenAppend. by rewrite Q1, Q2.
Qed.

Lemma inStep_Fprint_rpz text : inStep (Fprint rpzZone text).
Proof.
  intros fs1 fs2 (I & (rpz & R1 & R2) & (body & Q1 & Q2)).
  split; [|done]. unfold Fprint. simpl. rewrite R1, R2. simpl.
  split; [|split].
  - intros name. rewrite !lookup_insert_ne by (symmetry; auto). apply I.
  - exists (rpz +:+ text). by rewrite !lookup_insert_eq.
  - exists body. by rewrite !lookup_insert_ne by auto.
Qed.

Lemma inStep_Fprint_cacheZone text : inStep (Fprint cacheZone text).
Proof.
  intros fs1 fs2 (I & (rpz & R1 & R2) & (body & Q1 & Q2)).
  split; [|done]. unfold Fprint. simpl. rewrite Q1, Q2. simpl.
  split; [|split].
  - intros name. rewrite !lookup_insert_ne by (symmetry; auto). apply I.
  - exists rpz. by rewrite !lookup_insert_ne by auto.
  - exists (body +:+ text). by rewrite !lookup_insert_eq, !app_assoc_s.
Qed.

Lemma inStep_ReadFile name : inStep (ReadFile (domainsFile name)).
Proof.
  intros fs1 fs2 S. pose proof S as (I & _). unfold ReadFile.
  rewrite (I name). by destruct (fs2 !! domainsFile name).
Qed.

#[local] Hint Resolve inStep_ret inStep_fail inStep_panic inStep_check
  inStep_OpenAppend_rpz inStep_OpenAppend_cacheZone inStep_Fprint_rpz
  inStep_Fprint_cacheZone inStep_ReadFile inStep_pure : core.
#[local] Hint Extern 2 (inStep (bind _ _)) =>
  apply inStep_bind; [|intros ?] : core.
#[local] Hint Extern 1 (inStep (Fprintln _ _)) => unfold Fprintln : core.

Lemma inStep_generateDomains_loop lines dom service :
  inStep (generateDomains_loop lines dom service).
Proof.
  induction lines as [|line rest IH]; simpl; [auto|].
  destruct (strings.HasPrefix line "#"); auto.
Qed.

Lemma inStep_generateDomains file dom service :
  inStep (generateDomains file dom service).
Proof.
  unfold generateDomains. fold (domainsFile file).
  auto using inStep_generateDomains_loop.
Qed.

Lemma inStep_generateService_loop ips service populate :
  inStep (generateService_loop ips cacheZone service populate).
Proof.
  revert populate. induction ips as [|ip rest IH]; intros populate; simpl;
    auto 10.
Qed.

Lemma inStep_enableService ip dom service file :
  inStep (enableService ip cacheZone dom service file).
Proof.
  unfold enableService.
  repeat (apply inStep_bind; [|intros ?]);
    auto using inStep_generateService_loop.
  destruct a2; auto using inStep_generateDomains.
Qed.

Lemma inStep_generateService g cacheIP dom service file :
  inStep (generateService environ g cacheIP cacheZone dom service file).
Proof.
  unfold generateService. destruct (enabled _ _ _); [|auto].
  destruct (negb _); auto using inStep_enableService.
Qed.

Lemma inStep_checkService_loop i g cacheIP dom services serviceFiles :
  inStep (checkService_loop environ i g cacheIP cacheZone dom services
            serviceFiles).
Proof.
  revert i. induction services as [|service rest IH]; intros i; simpl;
    [auto|].
  destruct (serviceFiles !! i); auto using inStep_generateService.
Qed.

Lemma inStep_identifyServices : inStep identifyServices.
Proof.
  unfold identifyServices.
  fold (domainsFile cacheDomain).
  apply inStep_bind; [auto|intros f]. destruct (jsonUnmarshal f); auto.
Qed.

Lemma inStep_passthru_loop ips : inStep (passthru_loop ips).
Proof. induction ips as [|ip rest IH]; simpl; auto 10. Qed.

Lemma inStep_finalisePassthru : inStep (finalisePassthru environ).
Proof.
  unfold finalisePassthru. destruct (negb _); auto using inStep_passthru_loop.
Qed.

(** Same records, different outcomes allowed. *)

Lemma sameOutput_inStep {A} (m : IO A) : inStep m → sameOutput m.
Proof. intros Hm fs1 fs2 S. by destruct (Hm fs1 fs2 S) as [[_ R] _]. Qed.

Lemma sameOutput_bind {A B} (m : IO A) (k : A → IO B) :
  inStep m → (∀ a, sameOutput (k a)) → sameOutput (bind m k).
Proof.
  intros Hm Hk fs1 fs2 S. destruct (Hm fs1 fs2 S) as [S' R]. unfold bind.
  destruct (m fs1) as [g1 r1], (m fs2) as [g2 r2]. simpl in *. subst r2.
  destruct r1 as [a|msg|msg]; [by apply Hk | apply S'..].
Qed.

Lemma finaliseCustomZone_rpz fs rpz :
  fs !! rpzZone = Some rpz →
  (finaliseCustomZone fs).1 !! rpzZone
  = Some (rpz +:+ ("$INCLUDE " +:+ customZone) +:+ nl).
Proof.
  intros R. rewrite finaliseCustomZone_steps. simpl.
  rewrite lookup_insert_eq. f_equal. f_equal.
  rewrite preserves_OpenAppend_same.
  destruct (fs !! customZone); [by rewrite R|].
  rewrite lookup_insert_ne by done. by rewrite R.
Qed.

Lemma sameOutput_finaliseConfiguration dns :
  sameOutput (finaliseConfiguration environ dns).
Proof.
  unfold finaliseConfiguration.
  apply sameOutput_bind; [apply inStep_finalisePassthru|intros []].
  intros fs1 fs2 (_ & (rpz & R1 & R2) & (body & Q1 & Q2)).
  assert (∀ fs, (bind finaliseCustomZone
                   (λ _, finaliseNamedConf environ dns) fs).1
                = (finaliseNamedConf environ dns (finaliseCustomZone fs).1).1)
    as E.
  { intros fs. unfold bind. by rewrite finaliseCustomZone_steps. }
  rewrite !E. split.
  - exists (rpz +:+ ("$INCLUDE " +:+ customZone) +:+ nl).
    rewrite !preserves_finaliseNamedConf by done.
    by rewrite (finaliseCustomZone_rpz fs1 rpz), (finaliseCustomZone_rpz fs2 rpz).
  - exists body. rewrite !preserves_finaliseNamedConf by done.
    destruct (finaliseCustomZone_writes fs1) as (_ & _ & _ & P1); [done|].
    destruct (finaliseCustomZone_writes fs2) as (_ & _ & _ & P2); [done|].
    by rewrite P1, P2 by done.
Qed.

(** Everything after the two zone files were created afresh. *)
Lemma sameOutput_services g dom cacheIP dns :
  sameOutput
    (found <- identifyServices ;;
     let '(services, serviceFiles) := found in
     checkService environ g cacheIP cacheZone dom services serviceFiles ;;
     finaliseConfiguration environ dns).
Proof.
  apply sameOutput_bind; [apply inStep_identifyServices|].
  intros [services serviceFiles].
  apply sameOutput_bind; [apply inStep_checkService_loop|intros []].
  apply sameOutput_finaliseConfiguration.
Qed.

End Regeneration.

Section Idempotence.

Context `{Package} `{Runtime}.
Variable environ : gmap string string.

(** The first three stages never fail. *)
Lemma generateConfiguration_stages now g dom cacheIP cacheZone dns fs :
  generateConfiguration environ now g dom cacheIP cacheZone dns fs
  = (found <- identifyServices ;;
     let '(services, serviceFiles) := found in
     checkService environ g cacheIP cacheZone dom services serviceFiles ;;
     finaliseConfiguration environ dns)
      (generateRPZZone
         (generateCacheZone now dom cacheZone (generateCacheConf fs).1).1).1.
Proof. reflexivity. Qed.

(** After them the zone files hold their headers only, whatever they
    held before. *)
Lemma zones_created now1 now2 dom cacheZone fs1 fs2 :
  cacheZone ≠ rpzZone →
  (∀ name, domainsFile name ≠ cacheConf) →
  (∀ name, domainsFile name ≠ cacheZone) →
  (∀ name, domainsFile name ≠ rpzZone) →
  (∀ name, fs1 !! domainsFile name = fs2 !! domainsFile name) →
  sameZones cacheZone
    (fmtCacheTemplate dom (strconv.FormatInt now1))
    (fmtCacheTemplate dom (strconv.FormatInt now2))
    (generateRPZZone
       (generateCacheZone now1 dom cacheZone (generateCacheConf fs1).1).1).1
    (generateRPZZone
       (generateCacheZone now2 dom cacheZone (generateCacheConf fs2).1).1).1.
Proof.
  intros Z I1 I2 I3 S.
  unfold generateRPZZone, generateCacheZone, generateCacheConf, bind,
    Fprintln, Fprint, Create. simpl.
  split; [|split].
  - intros name.
    rewrite !(lookup_insert_ne _ rpzZone) by (symmetry; apply I3).
    rewrite !(lookup_insert_ne _ cacheZone) by (symmetry; apply I2).
    rewrite !(lookup_insert_ne _ cacheConf) by (symmetry; apply I1).
    apply S.
  - eexists. by rewrite !lookup_insert_eq.
  - exists "". rewrite !(lookup_insert_ne _ rpzZone) by done.
    by rewrite !lookup_insert_eq, !app_nil_r_s.
Qed.

(** C7. Two generation runs from file systems with the same catalog
    directory, in the same environment, leave the same RPZ zone, and
    cache zones that are the header for their own serial (the Unix time
    of the run) followed by the same records.  What the zone files held
    before a run does not matter: each run creates them afresh.  The
    zone files, the custom zone and the resolver template are different
    files, none of them in the catalog directory. *)
Theorem regeneration_idempotent (now1 now2 : Z)
    (g dom cacheIP cacheZone : string) (dns : slice)
    (fs1 fs2 : gmap string string) :
  cacheZone ≠ rpzZone →
  (∀ name, domainsFile name ≠ cacheConf) →
  (∀ name, domainsFile name ≠ cacheZone) →
  (∀ name, domainsFile name ≠ rpzZone) →
  customZone ≠ rpzZone → customZone ≠ cacheZone →
  namedConf ≠ rpzZone → namedConf ≠ cacheZone →
  (∀ name, fs1 !! domainsFile name = fs2 !! domainsFile name) →
  (∃ rpz,
     (generateConfiguration environ now1 g dom cacheIP cacheZone dns fs1).1
       !! rpzZone = Some rpz
     ∧ (generateConfiguration environ now2 g dom cacheIP cacheZone dns fs2).1
         !! rpzZone = Some rpz)
  ∧ (∃ records,
       (generateConfiguration environ now1 g dom cacheIP cacheZone dns fs1).1
         !! cacheZone
       = Some (fmtCacheTemplate dom (strconv.FormatInt now1) +:+ records)
       ∧ (generateConfiguration environ now2 g dom cacheIP cacheZone dns fs2).1
           !! cacheZone
         = Some (fmtCacheTemplate dom (strconv.FormatInt now2) +:+ records)).
Proof.
  intros Z I1 I2 I3 K1 K2 N1 N2 S.
  rewrite !generateConfiguration_stages.
  apply (sameOutput_services environ cacheZone
           (fmtCacheTemplate dom (strconv.FormatInt now1))
           (fmtCacheTemplate dom (strconv.FormatInt now2))
           Z I2 I3 K1 K2 N1 N2 g dom cacheIP dns).
  by apply zones_created.
Qed.

End Idempotence.

(** ** The entry point and the catalog *)

Section EntryPoint.

Context `{Package} `{Runtime}.
Variable environ : gmap string string.

(** C9. The defaults written for LANCACHE_DNSDOMAIN and UPSTREAM_DNS
    never replace anything: the DNS domain and the upstream DNS that
    [generateLancacheDNS] runs with are the raw values of the two
    variables, so they are the defaults only when the variables are set
    to exactly those, and an unset LANCACHE_DNSDOMAIN gives the empty
    domain and the cache zone path zonePath + ".db". *)
Theorem defaults_are_raw_environment (now : Z) (fs : gmap string string) :
  lancacheDNSDomain environ = os.Getenv environ "LANCACHE_DNSDOMAIN"
  ∧ upstreamDNS environ = os.Getenv environ "UPSTREAM_DNS"
  ∧ generateLancacheDNS environ now fs
    = generateLancacheDNS_from environ now (useGenericCache environ)
        (os.Getenv environ "LANCACHE_DNSDOMAIN")
        (os.Getenv environ "UPSTREAM_DNS") fs
  ∧ (lancacheDNSDomain environ = "cache.lancache.net" →
     environ !! "LANCACHE_DNSDOMAIN" = Some "cache.lancache.net")
  ∧ (upstreamDNS environ = "8.8.8.8" →
     environ !! "UPSTREAM_DNS" = Some "8.8.8.8")
  ∧ (environ !! "LANCACHE_DNSDOMAIN" = None →
     lancacheDNSDomain environ = ""
     ∧ cacheZoneOf (lancacheDNSDomain environ) = zonePath +:+ ".db")
  ∧ (environ !! "UPSTREAM_DNS" = None → upstreamDNS environ = "").
Proof.
  assert (lancacheDNSDomain environ = os.Getenv environ "LANCACHE_DNSDOMAIN")
    as D.
  { unfold lancacheDNSDomain.
    by destruct (String.eqb_spec (os.Getenv environ "LANCACHE_DNSDOMAIN")
                   "cache.lancache.net"). }
  assert (upstreamDNS environ = os.Getenv environ "UPSTREAM_DNS") as U.
  { unfold upstreamDNS.
    by destruct (String.eqb_spec (os.Getenv environ "UPSTREAM_DNS")
                   "8.8.8.8"). }
  split; [done|]. split; [done|]. split.
  { unfold generateLancacheDNS. by rewrite D, U. }
  rewrite D, U. unfold os.Getenv, cacheZoneOf.
  split; [|split; [|split]].
  - destruct (environ !! "LANCACHE_DNSDOMAIN"); simpl; congruence.
  - destruct (environ !! "UPSTREAM_DNS"); simpl; congruence.
  - intros E. by rewrite E.
  - intros E. by rewrite E.
Qed.

(** The catalog loop, from any accumulators: with a first domain file
    in every entry it adds the names and the first files in catalog
    order. *)
Lemma identifyServices_loop_ok entries serviceMap serviceFileMap :
  Forall (λ entry, DomainFiles entry ≠ []) entries →
  ∃ files,
    identifyServices_loop entries serviceMap serviceFileMap
    = Ok ((serviceMap ++ List.map Name entries)%list,
          (serviceFileMap ++ files)%list)
    ∧ Forall2 (λ entry file, firstFile entry = Some file) entries files.
Proof.
  intros F. revert serviceMap serviceFileMap.
  induction F as [|entry rest Hd _ IH]; intros serviceMap serviceFileMap.
  - exists []. simpl. by rewrite !app_nil_r.
  - simpl. destruct (DomainFiles entry) as [|file others] eqn:E; [done|].
    simpl. destruct (IH (serviceMap ++ [Name entry])%list
                       (serviceFileMap ++ [file])%list) as (files & R & Q).
    exists (file :: files). rewrite R, <- !app_assoc. simpl.
    split; [done|]. constructor; [|done]. unfold firstFile. by rewrite E.
Qed.

(** An entry without domain files makes it panic. *)
Lemma identifyServices_loop_panic entries serviceMap serviceFileMap :
  Exists (λ entry, DomainFiles entry = []) entries →
  identifyServices_loop entries serviceMap serviceFileMap
  = Panic "runtime error: index out of range [0] with length 0".
Proof.
  revert serviceMap serviceFileMap.
  induction entries as [|entry rest IH]; intros serviceMap serviceFileMap X.
  - by apply Exists_nil in X.
  - simpl. destruct (DomainFiles entry) as [|file others] eqn:E; [done|].
    simpl. apply IH. apply Exists_cons in X as [X|X]; [congruence | done].
Qed.

(** C10. [identifyServices] takes [DomainFiles[0]] of every catalog
    entry without looking at the length.  When every entry has a domain
    file it returns the names and the first files of the entries, in
    catalog order, so the two lists are as long as the catalog; further
    domain files are ignored.  When some entry has no domain file the
    index is out of range and the call panics. *)
Theorem identifyServices_first_file (doc : string) (cacheData : CacheFile)
    (fs : gmap string string) :
  fs !! domainsFile cacheDomain = Some doc →
  jsonUnmarshal doc = inr cacheData →
  (Forall (λ entry, DomainFiles entry ≠ []) (CacheDomains cacheData) →
     ∃ services files,
       identifyServices fs = (fs, Ok (services, files))
       ∧ services = List.map Name (CacheDomains cacheData)
       ∧ Forall2 (λ entry file, firstFile entry = Some file)
           (CacheDomains cacheData) files
       ∧ length services = length files)
  ∧ (Exists (λ entry, DomainFiles entry = []) (CacheDomains cacheData) →
     identifyServices fs
     = (fs, Panic "runtime error: index out of range [0] with length 0")).
Proof.
  intros F J. unfold identifyServices, bind, ReadFile.
  fold (domainsFile cacheDomain). rewrite F, J. split.
  - intros A.
    destruct (identifyServices_loop_ok (CacheDomains cacheData) [] [] A)
      as (files & R & Q).
    exists (List.map Name (CacheDomains cacheData)), files.
    simpl in R. rewrite R. repeat split; try done.
    rewrite length_map. by apply Forall2_length in Q.
  - intros X. by rewrite identifyServices_loop_panic.
Qed.

End EntryPoint.

(** ** The sample deployment *)

Section Deployment.

#[local] Existing Instance Sample.package.
#[local] Existing Instance Sample.runtime.

Import Sample.

(** C4 as stated fails.  On the domain file of the specification's own
    example (a comment, a blank line, store.steampowered.com) the code
    writes two records, the first one for the blank line, where the
    claim has one. *)
Lemma blank_line_gets_a_record :
  content
    (generateDomains "steam.txt" "cache.lancache.net" "steam" disk).1 rpzZone
  = " IN CNAME steam.cache.lancache.net.;" +:+ nl
      +:+ "store.steampowered.com IN CNAME steam.cache.lancache.net.;" +:+ nl
  ∧ rewriteText_spec (bufio.ReadLines steamFile) "cache.lancache.net" "steam"
    = "store.steampowered.com IN CNAME steam.cache.lancache.net.;" +:+ nl
  ∧ content
      (generateDomains "steam.txt" "cache.lancache.net" "steam" disk).1 rpzZone
    ≠ content disk rpzZone
        +:+ rewriteText_spec (bufio.ReadLines steamFile)
              "cache.lancache.net" "steam".
Proof. vm_compute. repeat split; discriminate. Qed.

Lemma generateDomains_records_witness :
  ∃ fs', generateDomains "steam.txt" "cache.lancache.net" "steam" usedDisk
         = (fs', Ok tt)
    ∧ content fs' rpzZone
      = content usedDisk rpzZone
          +:+ rewriteText (bufio.ReadLines steamFile) "cache.lancache.net"
                "steam"
    ∧ ∀ p, p ≠ rpzZone → fs' !! p = usedDisk !! p.
Proof.
  apply (generateDomains_records "steam.txt" "cache.lancache.net" "steam"
           steamFile usedDisk).
  - vm_compute. reflexivity.
  - vm_compute. discriminate.
Defined.

(** C5 as stated fails.  For the operator address 203.0.113.5 the
    finalizer writes the record without the closing `;` of the service
    record: the service record is not a line of the RPZ zone. *)
Lemma operator_record_differs :
  content (finaliseConfiguration passthruEnv None disk).1 rpzZone
  = ";## Additional RPZ passthroughs" +:+ nl
      +:+ "32.5.113.0.203.rpz-client-ip      CNAME rpz-passthru." +:+ nl
      +:+ "$INCLUDE /etc/bind/cache/custom.db" +:+ nl
  ∧ serviceRecord "203.0.113.5"
    = "32.5.113.0.203.rpz-client-ip      CNAME rpz-passthru.;"
  ∧ ¬ In (serviceRecord "203.0.113.5")
        (strings.Split
           (content (finaliseConfiguration passthruEnv None disk).1 rpzZone)
           LF).
Proof.
  vm_compute. repeat split.
  intros [E|[E|[E|[E|[]]]]]; discriminate E.
Qed.

Lemma operator_passthrough_records_witness :
  content (finaliseConfiguration passthruEnv None disk).1 rpzZone
  = content disk rpzZone
      +:+ joined (List.map
                    (fun ip => ";## Additional RPZ passthroughs" +:+ nl
                                 +:+ operatorRecord ip +:+ nl)
                    (range (cleanIP (os.Getenv passthruEnv "PASSTHRU_IPS"))))
      +:+ "$INCLUDE " +:+ customZone +:+ nl
  ∧ ∀ ip populate fs0,
      content (generateService_loop [ip] cacheZone "steam" populate fs0).1
        rpzZone
      = content fs0 rpzZone +:+ operatorRecord ip +:+ ";" +:+ nl.
Proof.
  apply (operator_passthrough_records passthruEnv None cacheZone "steam" disk).
  - vm_compute. discriminate.
  - vm_compute. reflexivity.
  - vm_compute. discriminate.
  - vm_compute. discriminate.
  - vm_compute. discriminate.
Defined.

Lemma resolved_ip_witness :
  enabled steamEnv "false" (strings.ToUpper "steam") = true
  ∧ generateService steamEnv "false" "" cacheZone "cache.lancache.net"
      "steam" "steam.txt" disk
    = enableService
        (os.Getenv steamEnv (strings.ToUpper "steam" +:+ "CACHE_IP"))
        cacheZone "cache.lancache.net" (strings.ToUpper "steam")
        "steam.txt" disk.
Proof.
  split; [vm_compute; reflexivity|].
  destruct (resolved_ip steamEnv "false" "" cacheZone "cache.lancache.net"
              "steam" "steam.txt" disk) as (Override & _ & _).
  - vm_compute. reflexivity.
  - apply Override. vm_compute. discriminate.
Defined.

(** C6 as stated fails.  With the public address 8.8.8.8 for steam the
    call returns the validation error, and the RPZ zone, which did not
    exist, now holds the delimiter of the service. *)
Lemma delimiter_written_before_validation :
  (generateService publicEnv "false" "" cacheZone "cache.lancache.net"
     "steam" "steam.txt" disk).2
  = Err "not a private IP address: 8.8.8.8"
  ∧ disk !! rpzZone = None
  ∧ (generateService publicEnv "false" "" cacheZone "cache.lancache.net"
       "steam" "steam.txt" disk).1 !! rpzZone
    = Some (";## steam" +:+ nl).
Proof. vm_compute. repeat split. Qed.

Lemma invalid_service_writes_witness :
  ∃ fs',
    generateService publicEnv "false" "" cacheZone "cache.lancache.net"
      "steam" "steam.txt" usedDisk
    = (fs', Err "not a private IP address: 8.8.8.8")
    ∧ content fs' rpzZone
      = content usedDisk rpzZone
          +:+ ";## " +:+ strings.ToLower (strings.ToUpper "steam") +:+ nl
    ∧ ∀ p, p ≠ rpzZone → fs' !! p = usedDisk !! p.
Proof.
  apply (invalid_service_writes publicEnv "false" "" cacheZone
           "cache.lancache.net" "steam" "steam.txt"
           "not a private IP address: 8.8.8.8" usedDisk).
  - vm_compute. reflexivity.
  - vm_compute. discriminate.
  - vm_compute. reflexivity.
Defined.

Lemma disk_catalog_unchanged name :
  disk !! domainsFile name = usedDisk !! domainsFile name.
Proof.
  unfold usedDisk. rewrite !lookup_insert_ne; [done|..];
    vm_compute; discriminate.
Qed.

Lemma regeneration_idempotent_witness :
  (∃ rpz,
     (generateConfiguration steamEnv 1700000000 "false" "cache.lancache.net"
        "" cacheZone (Some ["8.8.8.8"]) disk).1 !! rpzZone = Some rpz
     ∧ (generateConfiguration steamEnv 1700000060 "false" "cache.lancache.net"
          "" cacheZone (Some ["8.8.8.8"]) usedDisk).1 !! rpzZone = Some rpz)
  ∧ (∃ records,
       (generateConfiguration steamEnv 1700000000 "false" "cache.lancache.net"
          "" cacheZone (Some ["8.8.8.8"]) disk).1 !! cacheZone
       = Some (fmtCacheTemplate "cache.lancache.net"
                 (strconv.FormatInt 1700000000) +:+ records)
       ∧ (generateConfiguration steamEnv 1700000060 "false"
            "cache.lancache.net" "" cacheZone (Some ["8.8.8.8"]) usedDisk).1
           !! cacheZone
         = Some (fmtCacheTemplate "cache.lancache.net"
                   (strconv.FormatInt 1700000060) +:+ records)).
Proof.
  apply (regeneration_idempotent steamEnv 1700000000 1700000060 "false"
           "cache.lancache.net" "" cacheZone (Some ["8.8.8.8"]) disk usedDisk).
  - vm_compute. discriminate.
  - intros name. vm_compute. discriminate.
  - intros name. vm_compute. discriminate.
  - intros name. vm_compute. discriminate.
  - vm_compute. discriminate.
  - vm_compute. discriminate.
  - vm_compute. discriminate.
  - vm_compute. discriminate.
  - apply disk_catalog_unchanged.
Defined.

Lemma custom_zone_kept_witness :
  (usedDisk !! customZone = None →
     (finaliseConfiguration passthruEnv (Some ["8.8.8.8"]) usedDisk).1
       !! customZone = Some "")
  ∧ (∀ zone, usedDisk !! customZone = Some zone →
     (finaliseConfiguration passthruEnv (Some ["8.8.8.8"]) usedDisk).1
       !! customZone = Some zone)
  ∧ ∃ passthrough,
      content (finaliseConfiguration passthruEnv (Some ["8.8.8.8"]) usedDisk).1
        rpzZone
      = content usedDisk rpzZone +:+ passthrough
          +:+ "$INCLUDE " +:+ customZone +:+ nl
      ∧ passthrough = passthruText (passthruIPs passthruEnv).
Proof.
  apply (custom_zone_kept passthruEnv (Some ["8.8.8.8"]) usedDisk).
  - right. vm_compute. reflexivity.
  - vm_compute. discriminate.
  - vm_compute. discriminate.
  - vm_compute. discriminate.
Defined.

(** The operator's custom zone survives, and a missing one is created
    empty. *)
Example custom_zone_on_disk :
  (finaliseConfiguration passthruEnv (Some ["8.8.8.8"]) usedDisk).1
    !! customZone = Some "operator records"
  ∧ (finaliseConfiguration passthruEnv (Some ["8.8.8.8"]) disk).1
      !! customZone = Some "".
Proof. vm_compute. split; reflexivity. Qed.

Lemma identifyServices_first_file_witness :
  (Forall (λ entry, DomainFiles entry ≠ []) (CacheDomains catalog) →
     ∃ services files,
       identifyServices disk = (disk, Ok (services, files))
       ∧ services = List.map Name (CacheDomains catalog)
       ∧ Forall2 (λ entry file, firstFile entry = Some file)
           (CacheDomains catalog) files
       ∧ length services = length files)
  ∧ (Exists (λ entry, DomainFiles entry = []) (CacheDomains catalog) →
     identifyServices disk
     = (disk, Panic "runtime error: index out of range [0] with length 0")).
Proof.
  apply (identifyServices_first_file catalogJSON catalog disk).
  - vm_compute. reflexivity.
  - vm_compute. reflexivity.
Defined.

(** A catalog entry without domain files: the loop panics at it; with
    several domain files only the first is taken. *)
Example broken_catalog_panics :
  identifyServices_loop (CacheDomains brokenCatalog) [] []
  = Panic "runtime error: index out of range [0] with length 0"
  ∧ identifyServices_loop [ {| Name := "steam";
                               DomainFiles := ["steam.txt"; "steam2.txt"] |} ]
      [] []
    = Ok (["steam"], ["steam.txt"]).
Proof. split; reflexivity. Qed.

(** The enablement examples of the specification. *)
Example enablement_examples :
  enabled genericEnv "true" (strings.ToUpper "steam") = false
  ∧ enabled genericEnv "true" (strings.ToUpper "origin") = true
  ∧ serviceIP genericEnv "10.0.0.5" (strings.ToUpper "origin") = "10.0.0.5"
  ∧ enabled steamEnv "false" (strings.ToUpper "steam") = true
  ∧ serviceIP steamEnv "" (strings.ToUpper "steam") = "10.0.0.9"
  ∧ enabled steamEnv "false" (strings.ToUpper "origin") = false
  ∧ enabled (<["ORIGINCACHE_IP" := ""]> steamEnv) "false"
      (strings.ToUpper "origin") = true.
Proof. vm_compute. repeat split. Qed.

End Deployment.


(** ** What a service writes *)

Lemma bind_ok {A B} (m : IO A) (k : A → IO B) fs fs' a :
  m fs = (fs', Ok a) → bind m k fs = k a fs'.
Proof. intros E. unfold bind. by rewrite E. Qed.

Lemma lower_upper_byte c :
  strings.lower_byte (strings.upper_byte c) = strings.lower_byte c.
Proof. by destruct c as [[] [] [] [] [] [] [] []]. Qed.

Lemma upper_lower_byte c :
  strings.upper_byte (strings.lower_byte c) = strings.upper_byte c.
Proof. by destruct c as [[] [] [] [] [] [] [] []]. Qed.

Lemma upper_upper_byte c :
  strings.upper_byte (strings.upper_byte c) = strings.upper_byte c.
Proof. by destruct c as [[] [] [] [] [] [] [] []]. Qed.

Lemma ToLower_ToUpper s :
  strings.ToLower (strings.ToUpper s) = strings.ToLower s.
Proof.
  induction s as [|c s IH]; [done|]. unfold strings.ToLower, strings.ToUpper in *.
  simpl. by rewrite lower_upper_byte, IH.
Qed.

Lemma ToUpper_ToLower s :
  strings.ToUpper (strings.ToLower s) = strings.ToUpper s.
Proof.
  induction s as [|c s IH]; [done|]. unfold strings.ToLower, strings.ToUpper in *.
  simpl. by rewrite upper_lower_byte, IH.
Qed.

Lemma ToUpper_ToUpper s :
  strings.ToUpper (strings.ToUpper s) = strings.ToUpper s.
Proof.
  induction s as [|c s IH]; [done|]. unfold strings.ToUpper in *.
  simpl. by rewrite upper_upper_byte, IH.
Qed.

Section ServiceOutput.

Context `{Package}.
Variable environ : gmap string string.

(** The run of an enabled service whose addresses are private: the
    delimiter, the address loop, then the domain file unless there was no
    address. *)
Lemma enableService_steps ip cacheZone dom service file fs :
  cacheZone ≠ rpzZone →
  isPrivateIP (cleanIP ip) = None →
  enableService ip cacheZone dom service file fs
  = match range (cleanIP ip) with
    | [] => ((Fprint rpzZone ((";## " +:+ strings.ToLower service) +:+ nl)
                (OpenAppend rpzZone fs).1).1, Ok tt)
    | _ => generateDomains file dom (strings.ToLower service)
             (generateService_loop (range (cleanIP ip)) cacheZone
                (strings.ToLower service) false
                (Fprint rpzZone ((";## " +:+ strings.ToLower service) +:+ nl)
                   (OpenAppend rpzZone fs).1).1).1
    end.
Proof.
  intros N Valid. unfold enableService.
  rewrite bind_OpenAppend, bind_Fprintln, Valid. simpl check. rewrite bind_ret.
  set (fs2 := (Fprint _ _ _).1).
  destruct (generateService_loop_writes (range (cleanIP ip)) cacheZone
              (strings.ToLower service) false fs2 N) as (R & _ & _).
  destruct (generateService_loop _ _ _ _ fs2) as [fs3 r] eqn:E.
  simpl in R. subst r. rewrite (bind_ok _ _ _ _ _ E).
  destruct (range (cleanIP ip)); [|done].
  simpl in E. by injection E as <-.
Qed.

Lemma generateService_enabled g cacheIP cacheZone dom service file fs :
  enabled environ g (strings.ToUpper service) = true →
  serviceIP environ cacheIP (strings.ToUpper service) ≠ "" →
  generateService environ g cacheIP cacheZone dom service file fs
  = enableService (serviceIP environ cacheIP (strings.ToUpper service))
      cacheZone dom (strings.ToUpper service) file fs.
Proof.
  intros En Ip. unfold generateService. rewrite En.
  apply eqb_false_s in Ip. by rewrite Ip.
Qed.

(** An enabled service with private addresses, after the address loop:
    what the zone files hold and what was left alone. *)
Lemma enableService_addresses ip cacheZone service fs :
  cacheZone ≠ rpzZone →
  content (generateService_loop (range (cleanIP ip)) cacheZone
             (strings.ToLower service) false
             (Fprint rpzZone ((";## " +:+ strings.ToLower service) +:+ nl)
                (OpenAppend rpzZone fs).1).1).1 cacheZone
  = content fs cacheZone
      +:+ addressText (strings.ToLower service) (range (cleanIP ip))
  ∧ content (generateService_loop (range (cleanIP ip)) cacheZone
               (strings.ToLower service) false
               (Fprint rpzZone ((";## " +:+ strings.ToLower service) +:+ nl)
                  (OpenAppend rpzZone fs).1).1).1 rpzZone
    = content fs rpzZone +:+ ";## " +:+ strings.ToLower service +:+ nl
        +:+ serviceText (range (cleanIP ip))
  ∧ ∀ p, p ≠ rpzZone → p ≠ cacheZone →
      (generateService_loop (range (cleanIP ip)) cacheZone
         (strings.ToLower service) false
         (Fprint rpzZone ((";## " +:+ strings.ToLower service) +:+ nl)
            (OpenAppend rpzZone fs).1).1).1 !! p = fs !! p.
Proof.
  intros N.
  set (fs2 := (Fprint rpzZone _ _).1).
  destruct (generateService_loop_writes (range (cleanIP ip)) cacheZone
              (strings.ToLower service) false fs2 N) as (_ & Z3 & R3).
  split; [|split].
  - rewrite Z3. subst fs2. by rewrite Fprint_other, OpenAppend_content.
  - rewrite R3. subst fs2. rewrite Fprint_same, OpenAppend_content.
    by rewrite !app_assoc_s.
  - intros p P1 P2. subst fs2.
    rewrite preserves_generateService_loop by done.
    by rewrite preserves_Fprint, preserves_OpenAppend.
Qed.

Lemma enableService_records ip cacheZone dom service file f fs :
  cacheZone ≠ rpzZone →
  isPrivateIP (cleanIP ip) = None →
  range (cleanIP ip) ≠ [] →
  fs !! domainsFile file = Some f →
  domainsFile file ≠ rpzZone → domainsFile file ≠ cacheZone →
  ∃ fs',
    enableService ip cacheZone dom service file fs = (fs', Ok tt)
    ∧ content fs' cacheZone
      = content fs cacheZone
          +:+ addressText (strings.ToLower service) (range (cleanIP ip))
    ∧ content fs' rpzZone
      = content fs rpzZone
          +:+ ";## " +:+ strings.ToLower service +:+ nl
          +:+ serviceText (range (cleanIP ip))
          +:+ rewriteText (bufio.ReadLines f) dom (strings.ToLower service)
    ∧ ∀ p, p ≠ rpzZone → p ≠ cacheZone → fs' !! p = fs !! p.
Proof.
  intros N Valid Some_ip F Nf1 Nf2.
  rewrite enableService_steps by done.
  destruct (enableService_addresses ip cacheZone service fs N) as (Z3 & R3 & P3).
  set (fs3 := (generateService_loop _ _ _ _ _).1) in *.
  destruct (generateDomains_records file dom (strings.ToLower service) f fs3)
    as (fs' & E & R & P); [by rewrite P3 | done |].
  exists fs'. destruct (range (cleanIP ip)) as [|i ips'] eqn:Eips; [done|].
  split; [done|]. split; [|split].
  - unfold content at 1. rewrite P by done. apply Z3.
  - rewrite R, R3. by rewrite !app_assoc_s.
  - intros p P1 P2. rewrite P by done. by apply P3.
Qed.

Lemma enableService_no_address ip cacheZone dom service file fs :
  cacheZone ≠ rpzZone →
  isPrivateIP (cleanIP ip) = None →
  range (cleanIP ip) = [] →
  ∃ fs',
    enableService ip cacheZone dom service file fs = (fs', Ok tt)
    ∧ content fs' rpzZone
      = content fs rpzZone +:+ ";## " +:+ strings.ToLower service +:+ nl
    ∧ ∀ p, p ≠ rpzZone → fs' !! p = fs !! p.
Proof.
  intros N Valid Empty. rewrite enableService_steps by done. rewrite Empty.
  eexists. split; [done|]. split.
  - rewrite Fprint_same, OpenAppend_content. by rewrite !app_assoc_s.
  - intros p P. by rewrite preserves_Fprint, preserves_OpenAppend.
Qed.

Lemma enableService_missing_file ip cacheZone dom service file fs :
  cacheZone ≠ rpzZone →
  isPrivateIP (cleanIP ip) = None →
  range (cleanIP ip) ≠ [] →
  fs !! domainsFile file = None →
  domainsFile file ≠ rpzZone → domainsFile file ≠ cacheZone →
  ∃ fs',
    enableService ip cacheZone dom service file fs
    = (fs', Err ("open " +:+ domainsFile file +:+ ": no such file or directory"))
    ∧ content fs' cacheZone
      = content fs cacheZone
          +:+ addressText (strings.ToLower service) (range (cleanIP ip))
    ∧ content fs' rpzZone
      = content fs rpzZone
          +:+ ";## " +:+ strings.ToLower service +:+ nl
          +:+ serviceText (range (cleanIP ip)).
Proof.
  intros N Valid Some_ip F Nf1 Nf2.
  rewrite enableService_steps by done.
  destruct (enableService_addresses ip cacheZone service fs N) as (Z3 & R3 & P3).
  set (fs3 := (generateService_loop _ _ _ _ _).1) in *.
  exists fs3. destruct (range (cleanIP ip)) as [|i ips'] eqn:Eips; [done|].
  split; [|done].
  unfold generateDomains, bind, ReadFile. fold (domainsFile file).
  by rewrite P3, F.
Qed.

(** X3. An enabled service with private addresses and a domain file:
    [generateService] returns nil, the cache zone gets one A record per
    address, the RPZ zone gets the delimiter, one passthrough record per
    address and the rewrite records of the domain file, all under the
    lower-cased service name, and no other file changes. *)
Theorem valid_service_records
    (genericCache cacheIP cacheZone dom service file f : string)
    (fs : gmap string string) :
  enabled environ genericCache (strings.ToUpper service) = true →
  serviceIP environ cacheIP (strings.ToUpper service) ≠ "" →
  isPrivateIP (cleanIP (serviceIP environ cacheIP (strings.ToUpper service)))
    = None →
  serviceAddresses environ cacheIP service ≠ [] →
  fs !! domainsFile file = Some f →
  cacheZone ≠ rpzZone →
  domainsFile file ≠ rpzZone → domainsFile file ≠ cacheZone →
  ∃ fs',
    generateService environ genericCache cacheIP cacheZone dom service file fs
    = (fs', Ok tt)
    ∧ content fs' cacheZone
      = content fs cacheZone
          +:+ addressText (strings.ToLower service)
                (serviceAddresses environ cacheIP service)
    ∧ content fs' rpzZone
      = content fs rpzZone
          +:+ ";## " +:+ strings.ToLower service +:+ nl
          +:+ serviceText (serviceAddresses environ cacheIP service)
          +:+ rewriteText (bufio.ReadLines f) dom (strings.ToLower service)
    ∧ ∀ p, p ≠ rpzZone → p ≠ cacheZone → fs' !! p = fs !! p.
Proof.
  intros En Ip Valid Some_ip F N Nf1 Nf2.
  rewrite generateService_enabled by done. unfold serviceAddresses in *.
  destruct (enableService_records
              (serviceIP environ cacheIP (strings.ToUpper service))
              cacheZone dom (strings.ToUpper service) file f fs)
    as (fs' & E & Z & R & P); try done.
  rewrite ToLower_ToUpper in *. by exists fs'.
Qed.

(** X4. An enabled service whose address string cleans to no address (and
    passes the private-range check): [generateService] returns nil having
    written the delimiter only; the domain file is not read, so it may be
    missing. *)
Theorem service_without_address
    (genericCache cacheIP cacheZone dom service file : string)
    (fs : gmap string string) :
  enabled environ genericCache (strings.ToUpper service) = true →
  serviceIP environ cacheIP (strings.ToUpper service) ≠ "" →
  isPrivateIP (cleanIP (serviceIP environ cacheIP (strings.ToUpper service)))
    = None →
  serviceAddresses environ cacheIP service = [] →
  cacheZone ≠ rpzZone →
  ∃ fs',
    generateService environ genericCache cacheIP cacheZone dom service file fs
    = (fs', Ok tt)
    ∧ content fs' rpzZone
      = content fs rpzZone +:+ ";## " +:+ strings.ToLower service +:+ nl
    ∧ ∀ p, p ≠ rpzZone → fs' !! p = fs !! p.
Proof.
  intros En Ip Valid Empty N.
  rewrite generateService_enabled by done. unfold serviceAddresses in *.
  destruct (enableService_no_address
              (serviceIP environ cacheIP (strings.ToUpper service))
              cacheZone dom (strings.ToUpper service) file fs)
    as (fs' & E & R & P); try done.
  rewrite ToLower_ToUpper in *. by exists fs'.
Qed.

(** X5. An enabled service with private addresses whose domain file is
    missing: [generateService] returns the open error, and the A records
    and passthrough records it wrote before stay in the zone files. *)
Theorem missing_domain_file
    (genericCache cacheIP cacheZone dom service file : string)
    (fs : gmap string string) :
  enabled environ genericCache (strings.ToUpper service) = true →
  serviceIP environ cacheIP (strings.ToUpper service) ≠ "" →
  isPrivateIP (cleanIP (serviceIP environ cacheIP (strings.ToUpper service)))
    = None →
  serviceAddresses environ cacheIP service ≠ [] →
  fs !! domainsFile file = None →
  cacheZone ≠ rpzZone →
  domainsFile file ≠ rpzZone → domainsFile file ≠ cacheZone →
  ∃ fs',
    generateService environ genericCache cacheIP cacheZone dom service file fs
    = (fs', Err ("open " +:+ domainsFile file +:+ ": no such file or directory"))
    ∧ content fs' cacheZone
      = content fs cacheZone
          +:+ addressText (strings.ToLower service)
                (serviceAddresses environ cacheIP service)
    ∧ content fs' rpzZone
      = content fs rpzZone
          +:+ ";## " +:+ strings.ToLower service +:+ nl
          +:+ serviceText (serviceAddresses environ cacheIP service).
Proof.
  intros En Ip Valid Some_ip F N Nf1 Nf2.
  rewrite generateService_enabled by done. unfold serviceAddresses in *.
  destruct (enableService_missing_file
              (serviceIP environ cacheIP (strings.ToUpper service))
              cacheZone dom (strings.ToUpper service) file fs)
    as (fs' & E & Z & R); try done.
  rewrite ToLower_ToUpper in *. by exists fs'.
Qed.

(** A service that is ready, whatever its case: nil is returned and the
    two zone files get the blocks of the service. *)
Lemma generateService_block g cacheIP cacheZone dom service file fs :
  cacheZone ≠ rpzZone →
  domainsFile file ≠ rpzZone → domainsFile file ≠ cacheZone →
  serviceReady environ g cacheIP fs service file →
  ∃ fs',
    generateService environ g cacheIP cacheZone dom service file fs
    = (fs', Ok tt)
    ∧ content fs' cacheZone
      = content fs cacheZone +:+ zoneBlock environ g cacheIP service
    ∧ content fs' rpzZone
      = content fs rpzZone +:+ rpzBlock environ g cacheIP dom fs service file
    ∧ ∀ p, p ≠ rpzZone → p ≠ cacheZone → fs' !! p = fs !! p.
Proof.
  intros N Nf1 Nf2 Ready. unfold serviceReady, zoneBlock, rpzBlock in *.
  destruct (enabled environ g (strings.ToUpper service)) eqn:En.
  - destruct Ready as (Ip & Valid & File); [done|].
    rewrite generateService_enabled by done. unfold serviceAddresses in *.
    destruct (range (cleanIP (serviceIP environ cacheIP
                                (strings.ToUpper service)))) as [|i ips] eqn:Eips.
    + destruct (enableService_no_address
                  (serviceIP environ cacheIP (strings.ToUpper service))
                  cacheZone dom (strings.ToUpper service) file fs)
        as (fs' & E & R & P); try done.
      rewrite ToLower_ToUpper in *. exists fs'. split; [done|]. split; [|split].
      * unfold content. rewrite P by done. unfold addressText. simpl.
        by rewrite app_nil_r_s.
      * rewrite R. unfold serviceText. simpl. by rewrite !app_nil_r_s.
      * intros p P1 P2. by apply P.
    + destruct File as [f F]; [done|].
      destruct (enableService_records
                  (serviceIP environ cacheIP (strings.ToUpper service))
                  cacheZone dom (strings.ToUpper service) file f fs)
        as (fs' & E & Z & R & P); try done.
      { by rewrite Eips. }
      rewrite ToLower_ToUpper, Eips in *. exists fs'.
      split; [done|]. split; [done|]. split; [|done].
      rewrite R. unfold content at 3. by rewrite F.
  - exists fs. unfold generateService. rewrite En.
    split; [done|]. by rewrite !app_nil_r_s.
Qed.

End ServiceOutput.

(** ** The loop over the services *)

Lemma noPanic_ret {A} (a : A) : noPanic (ret a).
Proof. by intros fs msg. Qed.

Lemma noPanic_fail {A} e : noPanic (@fail A e).
Proof. by intros fs msg. Qed.

Lemma noPanic_check e : noPanic (check e).
Proof. by destruct e. Qed.

Lemma noPanic_bind {A B} (m : IO A) (k : A → IO B) :
  noPanic m → (∀ a, noPanic (k a)) → noPanic (bind m k).
Proof.
  intros Hm Hk fs msg. unfold bind. specialize (Hm fs).
  destruct (m fs) as [fs' [a|e|e]]; simpl in *; [apply Hk | done |].
  by destruct (Hm e).
Qed.

Lemma noPanic_OpenAppend path : noPanic (OpenAppend path).
Proof. intros fs msg. by rewrite OpenAppend_ok. Qed.

Lemma noPanic_Fprint path text : noPanic (Fprint path text).
Proof. by intros fs msg. Qed.

Lemma noPanic_Fprintln path text : noPanic (Fprintln path text).
Proof. by intros fs msg. Qed.

Lemma noPanic_ReadFile path : noPanic (ReadFile path).
Proof. intros fs msg. unfold ReadFile. by destruct (fs !! path). Qed.

Create HintDb noPanic discriminated.
#[local] Hint Resolve noPanic_ret noPanic_fail noPanic_check
  noPanic_OpenAppend noPanic_Fprint noPanic_Fprintln noPanic_ReadFile : noPanic.
#[local] Hint Extern 2 (noPanic (bind _ _)) =>
  apply noPanic_bind; [|intros ?] : noPanic.

Section ServiceLoop.

Context `{Package} `{Runtime}.
Variable environ : gmap string string.

Lemma noPanic_generateDomains file dom service :
  noPanic (generateDomains file dom service).
Proof.
  unfold generateDomains.
  apply noPanic_bind; [auto with noPanic|intros f].
  apply noPanic_bind; [auto with noPanic|intros _].
  induction (bufio.ReadLines f) as [|line rest IH]; simpl; [auto with noPanic|].
  destruct (strings.HasPrefix line "#"); auto with noPanic.
Qed.

Lemma noPanic_generateService_loop ips cacheZone service populate :
  noPanic (generateService_loop ips cacheZone service populate).
Proof.
  revert populate. induction ips as [|ip rest IH]; intros populate; simpl;
    auto 10 with noPanic.
Qed.

Lemma noPanic_generateService g cacheIP cacheZone dom service file :
  noPanic (generateService environ g cacheIP cacheZone dom service file).
Proof.
  unfold generateService. destruct (enabled _ _ _); [|auto with noPanic].
  destruct (negb _); [|auto with noPanic]. unfold enableService.
  repeat (apply noPanic_bind; [|intros ?]);
    auto using noPanic_generateService_loop with noPanic.
  destruct a2; auto using noPanic_generateDomains with noPanic.
Qed.

Lemma noPanic_checkService_loop i g cacheIP cacheZone dom services serviceFiles :
  (i + length services ≤ length serviceFiles)%nat →
  noPanic (checkService_loop environ i g cacheIP cacheZone dom services
             serviceFiles).
Proof.
  revert i. induction services as [|service rest IH]; intros i L; simpl in *;
    [auto with noPanic|].
  destruct (serviceFiles !! i) as [file|] eqn:E.
  - apply noPanic_bind; [apply noPanic_generateService|intros _].
    apply IH. lia.
  - apply lookup_ge_None in E. lia.
Qed.

(** The catalog loop returns lists of the same length when it returns. *)
Lemma identifyServices_loop_lengths entries serviceMap serviceFileMap
    services files :
  identifyServices_loop entries serviceMap serviceFileMap = Ok (services, files) →
  length serviceMap = length serviceFileMap →
  length services = length files.
Proof.
  revert serviceMap serviceFileMap.
  induction entries as [|entry rest IH]; intros serviceMap serviceFileMap; simpl.
  - intros [= <- <-]. done.
  - destruct (DomainFiles entry !! 0) as [file|]; [|done].
    intros E L. apply (IH _ _ E). rewrite !length_app. simpl. lia.
Qed.

(** X8. The lists that [identifyServices] returns can be handed to
    [checkService] safely: they have the same length, so [serviceFiles[i]]
    is always in range and the loop over the services never panics,
    whatever the services do. *)
Theorem checkService_index_in_range
    (g cacheIP cacheZone dom : string) (services files : list string)
    (fs fs' : gmap string string) :
  identifyServices fs = (fs', Ok (services, files)) →
  length services = length files
  ∧ noPanic (checkService environ g cacheIP cacheZone dom services files).
Proof.
  intros E. assert (length services = length files) as L.
  { unfold identifyServices, bind in E.
    destruct (ReadFile _ fs) as [fs1 [f|e|e]]; [|done..].
    destruct (jsonUnmarshal f); [done|].
    injection E as _ E. by apply identifyServices_loop_lengths in E. }
  split; [done|]. apply noPanic_checkService_loop. lia.
Qed.

(** With fewer files than services the loop panics at the first service
    without a file, after the services before it were handled. *)
Lemma checkService_loop_panics i g cacheIP cacheZone dom service rest
    serviceFiles fs :
  (length serviceFiles ≤ i)%nat →
  checkService_loop environ i g cacheIP cacheZone dom (service :: rest)
    serviceFiles fs
  = (fs, Panic "runtime error: index out of range").
Proof. intros L. simpl. by rewrite (proj2 (lookup_ge_None _ _) L). Qed.

Lemma preserves_generateService p g cacheIP cacheZone dom service file :
  rpzZone ≠ p → cacheZone ≠ p →
  preserves p (generateService environ g cacheIP cacheZone dom service file).
Proof.
  intros N1 N2. unfold generateService.
  destruct (enabled _ _ _); [|auto with preserves].
  destruct (negb _); [|auto with preserves]. unfold enableService.
  repeat (apply preserves_bind; [|intros ?]);
    auto using preserves_generateService_loop with preserves.
  destruct a2; auto using preserves_generateDomains with preserves.
Qed.

Lemma preserves_checkService_loop p i g cacheIP cacheZone dom services files :
  rpzZone ≠ p → cacheZone ≠ p →
  preserves p (checkService_loop environ i g cacheIP cacheZone dom services
                 files).
Proof.
  intros N1 N2. revert i.
  induction services as [|service rest IH]; intros i; simpl;
    [auto with preserves|].
  destruct (files !! i); auto using preserves_generateService with preserves.
Qed.

Lemma appends_checkService_loop i g cacheIP cacheZone dom services files :
  appends (checkService_loop environ i g cacheIP cacheZone dom services files).
Proof.
  revert i. induction services as [|service rest IH]; intros i; simpl;
    [auto with appends|].
  destruct (files !! i); auto using appends_generateService with appends.
Qed.

(** X7. The loop over the services only adds to the two zone files,
    whatever its outcome: every file afterwards is what it was followed by
    what was appended, and a file other than the RPZ zone and the cache
    zone is exactly what it was. *)
Theorem checkService_append_only
    (g cacheIP cacheZone dom : string) (services files : list string)
    (fs : gmap string string) :
  appended fs (checkService environ g cacheIP cacheZone dom services files fs).1
  ∧ ∀ p, p ≠ rpzZone → p ≠ cacheZone →
      (checkService environ g cacheIP cacheZone dom services files fs).1 !! p
      = fs !! p.
Proof.
  split.
  - apply appends_checkService_loop.
  - intros p N1 N2. by apply preserves_checkService_loop.
Qed.

End ServiceLoop.

Section CatalogOrder.

Context `{Package}.
Variable environ : gmap string string.

Lemma serviceReady_agree g cacheIP fs fs0 service file :
  fs !! domainsFile file = fs0 !! domainsFile file →
  serviceReady environ g cacheIP fs0 service file →
  serviceReady environ g cacheIP fs service file.
Proof. intros E R En. rewrite E. by apply R. Qed.

Lemma rpzBlock_agree g cacheIP dom fs fs0 service file :
  fs !! domainsFile file = fs0 !! domainsFile file →
  rpzBlock environ g cacheIP dom fs service file
  = rpzBlock environ g cacheIP dom fs0 service file.
Proof. intros E. unfold rpzBlock, content. by rewrite E. Qed.

(** The loop from any position: [before] holds the files of the services
    already handled, [fs0] is the file system the loop started from. *)
Lemma checkService_loop_blocks g cacheIP cacheZone dom fs0 services files :
  cacheZone ≠ rpzZone →
  Forall2 (λ service file,
             domainsFile file ≠ rpzZone ∧ domainsFile file ≠ cacheZone
             ∧ serviceReady environ g cacheIP fs0 service file)
    services files →
  ∀ before fs,
    (∀ p, p ≠ rpzZone → p ≠ cacheZone → fs !! p = fs0 !! p) →
    ∃ fs',
      checkService_loop environ (length before) g cacheIP cacheZone dom
        services (before ++ files)%list fs = (fs', Ok tt)
      ∧ content fs' cacheZone
        = content fs cacheZone
            +:+ joined (List.map (zoneBlock environ g cacheIP) services)
      ∧ content fs' rpzZone
        = content fs rpzZone
            +:+ joined (List.map
                          (λ sf, rpzBlock environ g cacheIP dom fs0 sf.1 sf.2)
                          (zip services files))
      ∧ ∀ p, p ≠ rpzZone → p ≠ cacheZone → fs' !! p = fs0 !! p.
Proof.
  intros N F.
  induction F as [|service file services files (Nf1 & Nf2 & Ready) _ IH];
    intros before fs Same.
  - exists fs. simpl. by rewrite !app_nil_r_s.
  - cbn [checkService_loop]. rewrite list_lookup_middle by done.
    destruct (generateService_block environ g cacheIP cacheZone dom service
                file fs N Nf1 Nf2) as (fs1 & E1 & Z1 & R1 & P1).
    { apply (serviceReady_agree g cacheIP fs fs0); [by apply Same | done]. }
    rewrite (bind_ok _ _ _ _ _ E1).
    destruct (IH (before ++ [file])%list fs1) as (fs' & E & Z & R & P).
    { intros p N1 N2. rewrite P1 by done. by apply Same. }
    rewrite length_app, Nat.add_1_r, <- app_assoc in E. simpl in E.
    exists fs'. split; [done|]. split; [|split; [|done]].
    + rewrite Z, Z1. cbn [List.map]. rewrite joined_cons.
      by rewrite !app_assoc_s.
    + rewrite R, R1. cbn [zip zip_with List.map]. rewrite joined_cons.
      cbn [fst snd].
      rewrite (rpzBlock_agree g cacheIP dom fs fs0) by (by apply Same).
      by rewrite !app_assoc_s.
Qed.

(** X6. When every service of the catalog is ready (see [serviceReady])
    and no domain file is one of the two zone files, [checkService]
    returns nil and has appended to the cache zone and to the RPZ zone the
    blocks of the services in catalog order, a service that is not enabled
    contributing nothing; no other file changes. *)
Theorem services_in_catalog_order
    (g cacheIP cacheZone dom : string) (services files : list string)
    (fs : gmap string string) :
  cacheZone ≠ rpzZone →
  Forall2 (λ service file,
             domainsFile file ≠ rpzZone ∧ domainsFile file ≠ cacheZone
             ∧ serviceReady environ g cacheIP fs service file)
    services files →
  ∃ fs',
    checkService environ g cacheIP cacheZone dom services files fs = (fs', Ok tt)
    ∧ content fs' cacheZone
      = content fs cacheZone
          +:+ joined (List.map (zoneBlock environ g cacheIP) services)
    ∧ content fs' rpzZone
      = content fs rpzZone
          +:+ joined (List.map
                        (λ sf, rpzBlock environ g cacheIP dom fs sf.1 sf.2)
                        (zip services files))
    ∧ ∀ p, p ≠ rpzZone → p ≠ cacheZone → fs' !! p = fs !! p.
Proof.
  intros N F.
  by apply (checkService_loop_blocks g cacheIP cacheZone dom fs services files
              N F [] fs).
Qed.

End CatalogOrder.

(** ** Around the zones *)

Section Surroundings.

Context `{Package} `{Runtime}.
Variable environ : gmap string string.

Lemma writeNameservers_writes path dns fs text :
  fs !! path = Some text →
  writeNameservers path dns fs
  = (<[path := text +:+ joined (List.map (fun d => "nameserver " +:+ d +:+ nl)
                                  dns)]> fs, Ok tt).
Proof.
  revert fs text. induction dns as [|d rest IH]; intros fs text E; simpl.
  - rewrite app_nil_r_s. by rewrite insert_id.
  - rewrite bind_Fprintln. unfold Fprint. simpl. rewrite E. simpl.
    erewrite IH by apply lookup_insert_eq.
    by rewrite insert_insert_eq, !app_assoc_s.
Qed.

(** X1. Whatever /etc/resolv.conf held, after [writeResolverConfiguration]
    it holds the comment line followed by one nameserver line per upstream
    address, in order; the call returns nil and changes no other file. *)
Theorem resolver_configuration (dns : slice) (fs : gmap string string) :
  writeResolverConfiguration dns fs
  = (<["/etc/resolv.conf" := resolverText (range dns)]> fs, Ok tt).
Proof.
  unfold writeResolverConfiguration, resolverText.
  unfold bind at 1, Create. rewrite bind_Fprintln. unfold Fprint. simpl.
  rewrite lookup_insert_eq. simpl.
  erewrite writeNameservers_writes by apply lookup_insert_eq.
  by rewrite !insert_insert_eq.
Qed.

(** X2. [bootstrapDNS] fails in one way only: the checkout is missing and
    the clone fails; its error is then the error of the clone.  Failures
    of set-url, fetch and reset are dropped, and nothing panics. *)
Theorem bootstrap_fails_on_clone_only (fs : gmap string string) (msg : string) :
  (bootstrapDNS environ fs).2 = Err msg →
  fs !! (domainsPath +:+ "/.git") = None
  ∧ (gitRun ["clone"; os.Getenv environ "CACHE_DOMAINS_REPO"; "."] fs).2
    = Some msg.
Proof.
  unfold bootstrapDNS. unfold bind at 1, NotExist.
  case_bool_decide as E.
  - unfold bind at 1, git.
    destruct (gitRun _ fs) as [fs1 [e|]]; simpl.
    + by intros [= ->].
    + destruct (negb _); [|done]. by unfold bind, git_.
  - rewrite bind_ret. destruct (negb _); [|done]. by unfold bind, git_.
Qed.

(** With the checkout in place and NOFETCH set to "true" no git command
    runs at all. *)
Lemma bootstrap_offline fs :
  is_Some (fs !! (domainsPath +:+ "/.git")) →
  os.Getenv environ "NOFETCH" = "true" →
  bootstrapDNS environ fs = (fs, Ok tt).
Proof.
  intros [v E] F. unfold bootstrapDNS. rewrite F. simpl.
  unfold bind, NotExist. rewrite E.
  by rewrite bool_decide_eq_false_2.
Qed.

(** X10. An upstream DNS list that [isIP] refuses stops
    [generateLancacheDNS] at once: the error is returned and no file was
    written or read. *)
Theorem invalid_upstream_dns (now : Z) (fs : gmap string string) (msg : string) :
  isIP (cleanIP (os.Getenv environ "UPSTREAM_DNS")) = Some msg →
  generateLancacheDNS environ now fs = (fs, Err msg).
Proof.
  intros Bad. unfold generateLancacheDNS, generateLancacheDNS_from.
  assert (upstreamDNS environ = os.Getenv environ "UPSTREAM_DNS") as ->.
  { unfold upstreamDNS.
    by destruct (String.eqb_spec (os.Getenv environ "UPSTREAM_DNS") "8.8.8.8"). }
  by rewrite Bad.
Qed.

(** X11. Operator passthrough addresses that [isIP] refuses stop the
    finalizer before it writes anything: the error is returned, the RPZ
    zone gets no include line and the custom zone is not created. *)
Theorem invalid_passthrough_ips (dns : slice) (fs : gmap string string)
    (msg : string) :
  os.Getenv environ "PASSTHRU_IPS" ≠ "" →
  isIP (cleanIP (os.Getenv environ "PASSTHRU_IPS")) = Some msg →
  finaliseConfiguration environ dns fs = (fs, Err msg).
Proof.
  intros Given Bad. unfold finaliseConfiguration, finalisePassthru.
  apply eqb_false_s in Given. by rewrite Given, Bad.
Qed.

(** X12. With a nil upstream list the finalizer does not touch the
    resolver template, which may even be missing: past the validation of
    PASSTHRU_IPS it returns nil. *)
Theorem finalizer_without_upstream (fs : gmap string string) :
  os.Getenv environ "PASSTHRU_IPS" = ""
  ∨ isIP (cleanIP (os.Getenv environ "PASSTHRU_IPS")) = None →
  rpzZone ≠ customZone → namedConf ≠ customZone → namedConf ≠ rpzZone →
  (finaliseConfiguration environ None fs).2 = Ok tt
  ∧ (finaliseConfiguration environ None fs).1 !! namedConf = fs !! namedConf.
Proof.
  intros V N1 N2 N3. rewrite finaliseConfiguration_steps by done.
  simpl. split; [done|].
  destruct (finalisePassthru_writes environ fs V) as (_ & _ & P1).
  destruct (finaliseCustomZone_writes (finalisePassthru environ fs).1 N1)
    as (_ & _ & _ & P2).
  rewrite P2 by done. by apply P1.
Qed.

(** X13. With an upstream list and no resolver template the finalizer
    fails at the very end: the error of the read is returned after the
    RPZ zone got its passthrough records and its include line and the
    custom zone was created. *)
Theorem missing_resolver_template (servers : list string)
    (fs : gmap string string) :
  os.Getenv environ "PASSTHRU_IPS" = ""
  ∨ isIP (cleanIP (os.Getenv environ "PASSTHRU_IPS")) = None →
  rpzZone ≠ customZone → namedConf ≠ customZone → namedConf ≠ rpzZone →
  fs !! namedConf = None →
  (finaliseConfiguration environ (Some servers) fs).2
  = Err ("open " +:+ namedConf +:+ ": no such file or directory")
  ∧ content (finaliseConfiguration environ (Some servers) fs).1 rpzZone
    = content fs rpzZone +:+ passthruText (passthruIPs environ)
        +:+ "$INCLUDE " +:+ customZone +:+ nl
  ∧ is_Some ((finaliseConfiguration environ (Some servers) fs).1 !! customZone).
Proof.
  intros V N1 N2 N3 Missing. split; [|split].
  - rewrite finaliseConfiguration_steps by done.
    destruct (finalisePassthru_writes environ fs V) as (_ & _ & P1).
    destruct (finaliseCustomZone_writes (finalisePassthru environ fs).1 N1)
      as (_ & _ & _ & P2).
    unfold finaliseNamedConf, bind, ReadFile.
    by rewrite P2, P1, Missing by done.
  - by apply finaliseConfiguration_rpz.
  - rewrite finaliseConfiguration_custom by done. by eexists.
Qed.

(** X14. In generic mode, once [checkGenericCache] has accepted the
    configuration, every service has an address string: an enabled
    service is never refused for want of an IP, it goes on to write its
    records for its override or for the global cache IP. *)
Theorem generic_mode_always_resolves
    (cacheIP cacheZone dom service file : string) (fs : gmap string string) :
  checkGenericCache "true" cacheIP = None →
  serviceIP environ cacheIP (strings.ToUpper service) ≠ ""
  ∧ (enabled environ "true" (strings.ToUpper service) = true →
     generateService environ "true" cacheIP cacheZone dom service file fs
     = enableService (serviceIP environ cacheIP (strings.ToUpper service))
         cacheZone dom (strings.ToUpper service) file fs).
Proof.
  intros Checked.
  assert (serviceIP environ cacheIP (strings.ToUpper service) ≠ "") as Ip.
  { unfold checkGenericCache in Checked. simpl in Checked.
    destruct (String.eqb_spec cacheIP "") as [|C]; [done|].
    unfold serviceIP.
    by destruct (String.eqb_spec
                   (os.Getenv environ (strings.ToUpper service +:+ "CACHE_IP"))
                   ""). }
  split; [done|]. intros En.
  unfold generateService. rewrite En.
  apply eqb_false_s in Ip. by rewrite Ip.
Qed.

(** X15. In per-service mode, once [checkGenericCache] has accepted the
    configuration (no global cache IP), a service whose <SERVICE>CACHE_IP
    is declared but empty is enabled and has no address: [generateService]
    fails with the missing-IP error and writes nothing. *)
Theorem empty_override_is_fatal
    (genericCache cacheIP cacheZone dom service file : string)
    (fs : gmap string string) :
  genericCache ≠ "true" →
  checkGenericCache genericCache cacheIP = None →
  environ !! (strings.ToUpper service +:+ "CACHE_IP") = Some "" →
  generateService environ genericCache cacheIP cacheZone dom service file fs
  = (fs, Err ("Could not find IP for requested service: "
                +:+ strings.ToUpper service)).
Proof.
  intros G Checked Declared.
  unfold checkGenericCache in Checked. apply eqb_false_s in G.
  rewrite G in Checked.
  destruct (String.eqb_spec cacheIP "") as [->|]; [|done].
  unfold generateService, enabled, serviceIP, os.LookupEnv, os.Getenv.
  by rewrite G, Declared.
Qed.

End Surroundings.

(** ** Reading lines *)

Lemma app_char_length (cur : string) (c : ascii) :
  String.length (cur +:+ String c "") = S (String.length cur).
Proof. rewrite length_app_s. simpl. lia. Qed.

Lemma dropCR_app_plain cur c :
  c ≠ CR → bufio.dropCR (cur +:+ String c "") = cur +:+ String c "".
Proof.
  intros N. induction cur as [|x cur IH]; simpl.
  - destruct (Ascii.eqb_spec c CR); done.
  - rewrite app_cons_s. simpl. rewrite IH.
    destruct (cur +:+ String c "") eqn:E; [|done].
    by destruct cur.
Qed.

(** A line without carriage return at its end is kept whole. *)
Lemma dropCR_plain line :
  Forall (λ c, c ≠ LF ∧ c ≠ CR) (list_ascii_of_string line) →
  bufio.dropCR line = line.
Proof.
  induction line as [|c line IH]; [done|]. intros F.
  apply Forall_cons in F as [[_ N] F]. simpl.
  rewrite (IH F). destruct line; [|done].
  by destruct (Ascii.eqb_spec c CR).
Qed.

Lemma ReadLines_go_cons c s cur n :
  bufio.ReadLines_go (String c s) cur n
  = if Ascii.eqb c LF then bufio.dropCR cur :: bufio.ReadLines_go s "" 0
    else if (S n =? bufio.defaultBufSize)%nat then
      if Ascii.eqb c CR then cur :: bufio.ReadLines_go s (String CR "") 1
      else (cur +:+ String c "") :: bufio.ReadLines_go s "" 0
    else bufio.ReadLines_go s (cur +:+ String c "") (S n).
Proof. reflexivity. Qed.

(** Reading on from the middle of a plain line: the rest of the line
    joins what was read of it. *)
Lemma ReadLines_go_line line rest cur n :
  Forall (λ c, c ≠ LF ∧ c ≠ CR) (list_ascii_of_string line) →
  (n + String.length line < bufio.defaultBufSize)%nat →
  bufio.ReadLines_go (line +:+ String LF rest) cur n
  = bufio.dropCR (cur +:+ line) :: bufio.ReadLines_go rest "" 0.
Proof.
  revert cur n. induction line as [|c line IH]; intros cur n F L.
  - change ("" +:+ String LF rest) with (String LF rest).
    rewrite ReadLines_go_cons. by rewrite app_nil_r_s.
  - apply Forall_cons in F as [[N1 N2] F].
    change (String.length (String c line)) with (S (String.length line)) in L.
    rewrite app_cons_s, ReadLines_go_cons.
    destruct (Ascii.eqb_spec c LF) as [|_]; [done|].
    destruct (Nat.eqb_spec (S n) bufio.defaultBufSize) as [E|_]; [lia|].
    rewrite IH by (done || lia).
    by rewrite app_assoc_s.
Qed.

Lemma ReadLines_go_last line cur n :
  Forall (λ c, c ≠ LF ∧ c ≠ CR) (list_ascii_of_string line) →
  (n + String.length line < bufio.defaultBufSize)%nat →
  String.length cur = n →
  bufio.ReadLines_go line cur n
  = if String.eqb (cur +:+ line) "" then [] else [cur +:+ line].
Proof.
  revert cur n. induction line as [|c line IH]; intros cur n F L Len.
  - simpl. rewrite app_nil_r_s. subst n.
    destruct cur; [done|]. simpl. by destruct (String.eqb_spec (String a cur) "").
  - apply Forall_cons in F as [[N1 N2] F].
    change (String.length (String c line)) with (S (String.length line)) in L.
    rewrite ReadLines_go_cons.
    destruct (Ascii.eqb_spec c LF) as [|_]; [done|].
    destruct (Nat.eqb_spec (S n) bufio.defaultBufSize) as [E|_]; [lia|].
    rewrite IH; [|done|lia|by rewrite app_char_length, Len].
    by rewrite app_assoc_s.
Qed.

Lemma unlines_cons line lines :
  unlines (line :: lines) = line +:+ String LF (unlines lines).
Proof. unfold unlines. simpl. by rewrite app_assoc_s. Qed.

(** X16. Reading back a file written line by line: for plain lines (no
    line feed or carriage return inside, shorter than the 4096-byte read
    buffer), the lines that [ReadLine] returns for the file made of the
    lines, each ended by a line feed, are exactly those lines; a last line
    without its line feed is returned as well. *)
Theorem ReadLines_unlines (lines : list string) (last : string) :
  Forall plainLine lines → plainLine last →
  bufio.ReadLines (unlines lines) = lines
  ∧ bufio.ReadLines (unlines_open lines last)
    = (lines ++ (if String.eqb last "" then [] else [last]))%list.
Proof.
  intros F [Ll Fl]. unfold bufio.ReadLines, unlines_open.
  induction F as [|line lines [L P] _ [IH1 IH2]].
  - split; [done|]. unfold unlines. simpl.
    by rewrite ReadLines_go_last.
  - rewrite unlines_cons. split.
    + rewrite ReadLines_go_line by done. simpl.
      by rewrite dropCR_plain, IH1.
    + rewrite app_assoc_s, app_cons_s, ReadLines_go_line by done. simpl.
      by rewrite dropCR_plain, IH2.
Qed.

(** ** The resolver template *)

Lemma prefix_app p s :
  String.prefix p s = true → ∃ after, s = p +:+ after.
Proof.
  revert s. induction p as [|c p IH]; intros s E.
  - by exists s.
  - destruct s as [|d s]; [done|]. simpl in E.
    destruct (Ascii.ascii_dec c d) as [->|]; [|done].
    destruct (IH s E) as [after ->]. by exists after.
Qed.

Lemma occursIn_cons old c s : occursIn old s → occursIn old (String c s).
Proof. intros (b & a & ->). by exists (String c b), a. Qed.

Lemma find_absent {A} (f : A → bool) (l : list A) :
  Forall (λ x, f x = false) l → List.find f l = None.
Proof. induction 1 as [|x l E _ IH]; simpl; [done|]. by rewrite E. Qed.

Lemma Replace_go_cons pairs c s :
  strings.Replace_go pairs (String c s) 0
  = match List.find (fun p => String.prefix (fst p) (String c s)) pairs with
    | Some (old, new) =>
        new +:+ strings.Replace_go pairs s (String.length old - 1)
    | None => String c (strings.Replace_go pairs s 0)
    end.
Proof. reflexivity. Qed.

(** Nothing to replace, nothing replaced. *)
Lemma Replace_absent pairs s :
  Forall (λ p, ¬ occursIn p.1 s) pairs → strings.Replace pairs s = s.
Proof.
  unfold strings.Replace. induction s as [|c s IH]; intros F; [done|].
  rewrite Replace_go_cons.
  assert (List.find (fun p => String.prefix (fst p) (String c s)) pairs = None)
    as ->.
  { apply find_absent. eapply Forall_impl; [exact F|].
    intros p N. apply not_true_is_false. intros E. apply N.
    destruct (prefix_app _ _ E) as [after ->]. by exists "", after. }
  rewrite IH; [done|]. eapply Forall_impl; [exact F|].
  intros p N O. apply N. by apply occursIn_cons.
Qed.

Lemma Join_cons x y rest sep :
  strings.Join (x :: y :: rest) sep = x +:+ sep +:+ strings.Join (y :: rest) sep.
Proof. done. Qed.

Lemma Split_go_nonempty sep s cur : strings.Split_go sep s cur ≠ [].
Proof.
  revert cur. induction s as [|c s IH]; intros cur; simpl; [done|].
  destruct (Ascii.eqb c sep); [done | apply IH].
Qed.

(** Splitting at line feeds and joining with line feeds gives the text
    back. *)
Lemma Join_Split_go s cur :
  strings.Join (strings.Split_go LF s cur) nl = cur +:+ s.
Proof.
  revert cur. induction s as [|c s IH]; intros cur; simpl.
  - by rewrite app_nil_r_s.
  - destruct (Ascii.eqb_spec c LF) as [->|N].
    + pose proof (Split_go_nonempty LF s "") as NE.
      destruct (strings.Split_go LF s "") as [|y rest] eqn:E; [done|].
      rewrite Join_cons, <- E, IH. done.
    + rewrite IH. by rewrite app_assoc_s.
Qed.

Lemma Split_go_occurs s cur line :
  In line (strings.Split_go LF s cur) → occursIn line (cur +:+ s).
Proof.
  revert cur. induction s as [|c s IH]; intros cur; simpl.
  - intros [<-|[]]. exists "", "". by rewrite ?app_nil_r_s.
  - destruct (Ascii.eqb c LF).
    + intros [<-|I].
      * by exists "", (String c s).
      * destruct (IH "" I) as (b & a & E). change ("" +:+ s) with s in E.
        exists (cur +:+ String c b), a. rewrite E.
        by rewrite !app_assoc_s.
    + intros I. destruct (IH _ I) as (b & a & E).
      exists b, a. rewrite <- E. by rewrite app_assoc_s.
Qed.

Lemma occursIn_trans old line s :
  occursIn old line → occursIn line s → occursIn old s.
Proof.
  intros (b1 & a1 & ->) (b2 & a2 & ->).
  exists (b2 +:+ b1), (a1 +:+ a2). by rewrite !app_assoc_s.
Qed.

Section Template.

Context `{Package}.
Variable environ : gmap string string.

(** X17. A resolver template in which none of the tokens occurs
    (`#ENABLE_UPSTREAM_DNS#`, `dns_ip` and, when DNSSEC validation is
    asked for, `dnssec-validation no`) is written back as it was: the
    template stage returns nil and leaves the file system unchanged. *)
Theorem template_without_tokens (servers : list string) (template : string)
    (fs : gmap string string) :
  fs !! namedConf = Some template →
  ¬ occursIn "#ENABLE_UPSTREAM_DNS#" template →
  ¬ occursIn "dns_ip" template →
  (os.Getenv environ "ENABLE_DNSSEC_VALIDATION" = "true" →
   ¬ occursIn "dnssec-validation no" template) →
  finaliseNamedConf environ (Some servers) fs = (fs, Ok tt).
Proof.
  intros F T1 T2 T3. unfold finaliseNamedConf, bind, ReadFile, WriteFile.
  rewrite F.
  set (r := if String.eqb _ _ then _ else _).
  assert (Forall (λ p, ¬ occursIn p.1 template) r) as Absent.
  { subst r.
    destruct (String.eqb_spec (os.Getenv environ "ENABLE_DNSSEC_VALIDATION")
                "true") as [E|_]; repeat constructor; auto. }
  assert (List.map (strings.Replace r) (strings.Split template LF)
          = strings.Split template LF) as ->.
  { rewrite <- (map_id (strings.Split template LF)) at 2.
    apply map_ext_in. intros line I. apply Replace_absent.
    eapply Forall_impl; [exact Absent|]. intros p N O. apply N.
    eapply occursIn_trans; [exact O|].
    by apply (Split_go_occurs template "" line). }
  unfold strings.Split. rewrite Join_Split_go. simpl.
  by rewrite insert_id.
Qed.

End Template.

(** ** A whole generation run *)

Section WholeRun.

Context `{Package} `{Runtime}.
Variable environ : gmap string string.

(** The file system once the three generated files were created afresh. *)
Lemma zones_after_creation now dom cacheZone fs :
  cacheZone ≠ rpzZone →
  (generateRPZZone
     (generateCacheZone now dom cacheZone (generateCacheConf fs).1).1).1
    !! rpzZone = Some (rpzTemplate +:+ nl)
  ∧ (generateRPZZone
       (generateCacheZone now dom cacheZone (generateCacheConf fs).1).1).1
      !! cacheZone = Some (fmtCacheTemplate dom (strconv.FormatInt now))
  ∧ ∀ p, p ≠ cacheConf → p ≠ cacheZone → p ≠ rpzZone →
      (generateRPZZone
         (generateCacheZone now dom cacheZone (generateCacheConf fs).1).1).1
        !! p = fs !! p.
Proof.
  intros N.
  unfold generateRPZZone, generateCacheZone, generateCacheConf, bind,
    Fprintln, Fprint, Create. simpl.
  split; [|split].
  - by rewrite !lookup_insert_eq.
  - rewrite !(lookup_insert_ne _ rpzZone) by done.
    by rewrite !lookup_insert_eq.
  - intros p P1 P2 P3.
    rewrite !(lookup_insert_ne _ rpzZone) by done.
    rewrite !(lookup_insert_ne _ cacheZone) by done.
    by rewrite !(lookup_insert_ne _ cacheConf) by done.
Qed.

Lemma preserves_finaliseConfiguration_zone p dns fs :
  os.Getenv environ "PASSTHRU_IPS" = ""
  ∨ isIP (cleanIP (os.Getenv environ "PASSTHRU_IPS")) = None →
  rpzZone ≠ customZone → rpzZone ≠ p → customZone ≠ p → namedConf ≠ p →
  (finaliseConfiguration environ dns fs).1 !! p = fs !! p.
Proof.
  intros V N1 P1 P2 P3. rewrite finaliseConfiguration_steps by done.
  destruct (finalisePassthru_writes environ fs V) as (_ & _ & Q1).
  destruct (finaliseCustomZone_writes (finalisePassthru environ fs).1 N1)
    as (_ & _ & _ & Q2).
  rewrite preserves_finaliseNamedConf by done.
  rewrite Q2 by done. by apply Q1.
Qed.

(** X9. Without the catalog file [generateConfiguration] fails with the
    open error after it has created the zone files afresh: what the cache
    zone and the RPZ zone held before is gone, they hold their headers
    only, and nothing is rolled back. *)
Theorem missing_catalog (now : Z) (g dom cacheIP cacheZone : string)
    (dns : slice) (fs : gmap string string) :
  fs !! domainsFile cacheDomain = None →
  cacheZone ≠ rpzZone →
  domainsFile cacheDomain ≠ cacheConf →
  domainsFile cacheDomain ≠ cacheZone →
  domainsFile cacheDomain ≠ rpzZone →
  ∃ fs',
    generateConfiguration environ now g dom cacheIP cacheZone dns fs
    = (fs', Err ("open " +:+ domainsFile cacheDomain
                   +:+ ": no such file or directory"))
    ∧ fs' !! rpzZone = Some (rpzTemplate +:+ nl)
    ∧ fs' !! cacheZone = Some (fmtCacheTemplate dom (strconv.FormatInt now)).
Proof.
  intros Missing N I1 I2 I3. rewrite generateConfiguration_stages.
  destruct (zones_after_creation now dom cacheZone fs N) as (R & Z & P).
  set (fs0 := (generateRPZZone _).1) in *.
  exists fs0. split; [|done].
  unfold bind at 1, identifyServices, bind, ReadFile.
  fold (domainsFile cacheDomain). by rewrite P, Missing.
Qed.

(** X18. A whole run in closed form.  When the catalog decodes to the
    lists [services] and [files], every service is ready, the operator
    addresses are valid and the files involved are distinct, then after
    [generateConfiguration] the cache zone is its header followed by the
    A-record blocks of the services in catalog order, and the RPZ zone is
    its header followed by the blocks of the services in catalog order,
    the operator passthrough records and the include line. *)
Theorem generated_zones (now : Z) (g dom cacheIP cacheZone doc : string)
    (dns : slice) (cacheData : CacheFile) (services files : list string)
    (fs : gmap string string) :
  fs !! domainsFile cacheDomain = Some doc →
  jsonUnmarshal doc = inr cacheData →
  identifyServices_loop (CacheDomains cacheData) [] [] = Ok (services, files) →
  Forall2 (λ service file,
             domainsFile file ≠ cacheConf ∧ domainsFile file ≠ rpzZone
             ∧ domainsFile file ≠ cacheZone
             ∧ serviceReady environ g cacheIP fs service file)
    services files →
  os.Getenv environ "PASSTHRU_IPS" = ""
  ∨ isIP (cleanIP (os.Getenv environ "PASSTHRU_IPS")) = None →
  cacheZone ≠ rpzZone →
  domainsFile cacheDomain ≠ cacheConf →
  domainsFile cacheDomain ≠ cacheZone →
  domainsFile cacheDomain ≠ rpzZone →
  customZone ≠ rpzZone → customZone ≠ cacheZone →
  namedConf ≠ rpzZone → namedConf ≠ cacheZone →
  content (generateConfiguration environ now g dom cacheIP cacheZone dns fs).1
    cacheZone
  = fmtCacheTemplate dom (strconv.FormatInt now)
      +:+ joined (List.map (zoneBlock environ g cacheIP) services)
  ∧ content (generateConfiguration environ now g dom cacheIP cacheZone dns fs).1
      rpzZone
    = rpzTemplate +:+ nl
        +:+ joined (List.map
                      (λ sf, rpzBlock environ g cacheIP dom fs sf.1 sf.2)
                      (zip services files))
        +:+ passthruText (passthruIPs environ)
        +:+ "$INCLUDE " +:+ customZone +:+ nl.
Proof.
  intros Doc Decoded Lists Ready V N I1 I2 I3 K1 K2 M1 M2.
  rewrite generateConfiguration_stages.
  destruct (zones_after_creation now dom cacheZone fs N) as (R0 & Z0 & P0).
  set (fs0 := (generateRPZZone _).1) in *.
  assert (identifyServices fs0 = (fs0, Ok (services, files))) as E0.
  { unfold identifyServices, bind, ReadFile. fold (domainsFile cacheDomain).
    by rewrite P0, Doc, Decoded, Lists. }
  rewrite (bind_ok _ _ _ _ _ E0).
  destruct (checkService_loop_blocks environ g cacheIP cacheZone dom fs0
              services files N) with (before := @nil string) (fs := fs0)
    as (fs1 & E1 & Z1 & R1 & P1); [|done|].
  { eapply Forall2_impl; [exact Ready|].
    intros service file (F1 & F2 & F3 & Rd). split; [done|]. split; [done|].
    apply (serviceReady_agree environ g cacheIP fs0 fs); [by apply P0 | done]. }
  change (checkService_loop environ (length []) g cacheIP cacheZone dom
            services ([] ++ files)%list fs0)
    with (checkService environ g cacheIP cacheZone dom services files fs0) in E1.
  rewrite (bind_ok _ _ _ _ _ E1). split.
  - unfold content at 1.
    rewrite preserves_finaliseConfiguration_zone by done.
    fold (content fs1 cacheZone). rewrite Z1. unfold content. by rewrite Z0.
  - rewrite finaliseConfiguration_rpz by done. rewrite R1.
    unfold content at 1. rewrite R0. simpl.
    assert (List.map (λ sf, rpzBlock environ g cacheIP dom fs0 sf.1 sf.2)
              (zip services files)
            = List.map (λ sf, rpzBlock environ g cacheIP dom fs sf.1 sf.2)
                (zip services files)) as ->.
    { clear -Ready P0. induction Ready as [|s f ss ff (F1 & F2 & F3 & _) _ IH];
        [done|].
      cbn [zip zip_with List.map fst snd]. rewrite IH. f_equal.
      apply rpzBlock_agree. by apply P0. }
    by rewrite !app_assoc_s.
Qed.

End WholeRun.

(** ** The deployments that go wrong, and more of the sample one *)

Lemma prefix_of_app old after : String.prefix old (old +:+ after) = true.
Proof.
  induction old as [|c old IH]; [by destruct after|].
  rewrite app_cons_s. simpl. by destruct (Ascii.ascii_dec c c).
Qed.

Lemma occursb_unfold old s :
  occursb old s
  = String.prefix old s
    || match s with
       | String _ s' => occursb old s'
       | EmptyString => false
       end.
Proof. by destruct s. Qed.

Lemma occursIn_occursb old s : occursIn old s → occursb old s = true.
Proof.
  intros (before & after & ->).
  induction before as [|c before IH].
  - change ("" +:+ old +:+ after) with (old +:+ after).
    by rewrite occursb_unfold, prefix_of_app.
  - rewrite app_cons_s, occursb_unfold, IH. by rewrite orb_true_r.
Qed.

Section Runs.

#[local] Existing Instance Sample.package.
#[local] Existing Instance Sample.runtime.

Import Sample Faulty.

Lemma bootstrap_fails_on_clone_only_witness :
  disk !! (domainsPath +:+ "/.git") = None
  ∧ (@gitRun offline ["clone"; os.Getenv steamEnv "CACHE_DOMAINS_REPO"; "."]
       disk).2 = Some "exit status 128".
Proof.
  apply (@bootstrap_fails_on_clone_only package offline steamEnv disk
           "exit status 128").
  vm_compute. reflexivity.
Defined.

Lemma valid_service_records_witness :
  ∃ fs',
    generateService steamEnv "false" "" cacheZone "cache.lancache.net"
      "Steam" "steam.txt" usedDisk = (fs', Ok tt)
    ∧ content fs' cacheZone
      = content usedDisk cacheZone
          +:+ addressText (strings.ToLower "Steam")
                (serviceAddresses steamEnv "" "Steam")
    ∧ content fs' rpzZone
      = content usedDisk rpzZone
          +:+ ";## " +:+ strings.ToLower "Steam" +:+ nl
          +:+ serviceText (serviceAddresses steamEnv "" "Steam")
          +:+ rewriteText (bufio.ReadLines steamFile) "cache.lancache.net"
                (strings.ToLower "Steam")
    ∧ ∀ p, p ≠ rpzZone → p ≠ cacheZone → fs' !! p = usedDisk !! p.
Proof.
  apply (valid_service_records steamEnv "false" "" cacheZone
           "cache.lancache.net" "Steam" "steam.txt" steamFile usedDisk).
  - vm_compute. reflexivity.
  - vm_compute. discriminate.
  - vm_compute. reflexivity.
  - vm_compute. discriminate.
  - vm_compute. reflexivity.
  - vm_compute. discriminate.
  - vm_compute. discriminate.
  - vm_compute. discriminate.
Defined.

(** The records of steam at 10.0.0.9, on the disk of an earlier run. *)
Example steam_records :
  content (generateService steamEnv "false" "" cacheZone "cache.lancache.net"
             "Steam" "steam.txt" usedDisk).1 cacheZone
  = "old zone" +:+ "steam IN A 10.0.0.9;" +:+ nl
  ∧ content (generateService steamEnv "false" "" cacheZone "cache.lancache.net"
               "Steam" "steam.txt" usedDisk).1 rpzZone
    = "old policy" +:+ ";## steam" +:+ nl
        +:+ "32.9.0.0.10.rpz-client-ip      CNAME rpz-passthru.;" +:+ nl
        +:+ " IN CNAME steam.cache.lancache.net.;" +:+ nl
        +:+ "store.steampowered.com IN CNAME steam.cache.lancache.net.;" +:+ nl.
Proof. vm_compute. split; reflexivity. Qed.

Lemma service_without_address_witness :
  ∃ fs',
    generateService blankEnv "false" "" cacheZone "cache.lancache.net"
      "steam" "missing.txt" disk = (fs', Ok tt)
    ∧ content fs' rpzZone
      = content disk rpzZone +:+ ";## " +:+ strings.ToLower "steam" +:+ nl
    ∧ ∀ p, p ≠ rpzZone → fs' !! p = disk !! p.
Proof.
  apply (service_without_address blankEnv "false" "" cacheZone
           "cache.lancache.net" "steam" "missing.txt" disk).
  - vm_compute. reflexivity.
  - vm_compute. discriminate.
  - vm_compute. reflexivity.
  - vm_compute. reflexivity.
  - vm_compute. discriminate.
Defined.

Lemma missing_domain_file_witness :
  ∃ fs',
    generateService steamEnv "false" "" cacheZone "cache.lancache.net"
      "steam" "missing.txt" disk
    = (fs', Err ("open " +:+ domainsFile "missing.txt"
                   +:+ ": no such file or directory"))
    ∧ content fs' cacheZone
      = content disk cacheZone
          +:+ addressText (strings.ToLower "steam")
                (serviceAddresses steamEnv "" "steam")
    ∧ content fs' rpzZone
      = content disk rpzZone
          +:+ ";## " +:+ strings.ToLower "steam" +:+ nl
          +:+ serviceText (serviceAddresses steamEnv "" "steam").
Proof.
  apply (missing_domain_file steamEnv "false" "" cacheZone
           "cache.lancache.net" "steam" "missing.txt" disk).
  - vm_compute. reflexivity.
  - vm_compute. discriminate.
  - vm_compute. reflexivity.
  - vm_compute. discriminate.
  - vm_compute. reflexivity.
  - vm_compute. discriminate.
  - vm_compute. discriminate.
  - vm_compute. discriminate.
Defined.

Lemma sample_services_ready (fs : gmap string string) :
  fs !! domainsFile "steam.txt" = Some steamFile →
  Forall2 (λ service file,
             domainsFile file ≠ cacheConf ∧ domainsFile file ≠ rpzZone
             ∧ domainsFile file ≠ cacheZone
             ∧ serviceReady steamEnv "false" "" fs service file)
    ["steam"; "origin"] ["steam.txt"; "origin.txt"].
Proof.
  intros F. constructor; [|constructor; [|constructor]].
  - do 3 (split; [vm_compute; discriminate|]).
    intros _. split; [vm_compute; discriminate|].
    split; [vm_compute; reflexivity|]. intros _. rewrite F. by eexists.
  - do 3 (split; [vm_compute; discriminate|]).
    intros E. vm_compute in E. discriminate E.
Qed.

Lemma services_in_catalog_order_witness :
  ∃ fs',
    checkService steamEnv "false" "" cacheZone "cache.lancache.net"
      ["steam"; "origin"] ["steam.txt"; "origin.txt"] usedDisk = (fs', Ok tt)
    ∧ content fs' cacheZone
      = content usedDisk cacheZone
          +:+ joined (List.map (zoneBlock steamEnv "false" "")
                        ["steam"; "origin"])
    ∧ content fs' rpzZone
      = content usedDisk rpzZone
          +:+ joined (List.map
                        (λ sf, rpzBlock steamEnv "false" "" "cache.lancache.net"
                                 usedDisk sf.1 sf.2)
                        (zip ["steam"; "origin"] ["steam.txt"; "origin.txt"]))
    ∧ ∀ p, p ≠ rpzZone → p ≠ cacheZone → fs' !! p = usedDisk !! p.
Proof.
  apply (services_in_catalog_order steamEnv "false" "" cacheZone
           "cache.lancache.net" ["steam"; "origin"] ["steam.txt"; "origin.txt"]
           usedDisk).
  - vm_compute. discriminate.
  - eapply Forall2_impl;
      [apply (sample_services_ready usedDisk); vm_compute; reflexivity|].
    intros service file (_ & F2 & F3 & Rd). done.
Defined.

Lemma checkService_index_in_range_witness :
  length ["steam"; "origin"] = length ["steam.txt"; "origin.txt"]
  ∧ noPanic (checkService steamEnv "false" "" cacheZone "cache.lancache.net"
               ["steam"; "origin"] ["steam.txt"; "origin.txt"]).
Proof.
  apply (checkService_index_in_range steamEnv "false" "" cacheZone
           "cache.lancache.net" ["steam"; "origin"] ["steam.txt"; "origin.txt"]
           disk disk).
  vm_compute. reflexivity.
Defined.

Lemma missing_catalog_witness :
  ∃ fs',
    generateConfiguration steamEnv 1700000000 "false" "cache.lancache.net" ""
      cacheZone None bareDisk
    = (fs', Err ("open " +:+ domainsFile cacheDomain
                   +:+ ": no such file or directory"))
    ∧ fs' !! rpzZone = Some (rpzTemplate +:+ nl)
    ∧ fs' !! cacheZone
      = Some (fmtCacheTemplate "cache.lancache.net"
                (strconv.FormatInt 1700000000)).
Proof.
  apply (missing_catalog steamEnv 1700000000 "false" "cache.lancache.net" ""
           cacheZone None bareDisk).
  - vm_compute. reflexivity.
  - vm_compute. discriminate.
  - vm_compute. discriminate.
  - vm_compute. discriminate.
  - vm_compute. discriminate.
Defined.

Lemma invalid_upstream_dns_witness :
  generateLancacheDNS namedUpstreamEnv 1700000000 disk
  = (disk, Err "not a valid IP address: dns.example.net").
Proof.
  apply (invalid_upstream_dns namedUpstreamEnv 1700000000 disk).
  vm_compute. reflexivity.
Defined.

Lemma invalid_passthrough_ips_witness :
  finaliseConfiguration shortPassthruEnv (Some ["8.8.8.8"]) disk
  = (disk, Err "not a valid IP address: 203.0.113").
Proof.
  apply (invalid_passthrough_ips shortPassthruEnv (Some ["8.8.8.8"]) disk).
  - vm_compute. discriminate.
  - vm_compute. reflexivity.
Defined.

Lemma finalizer_without_upstream_witness :
  (finaliseConfiguration passthruEnv None bareDisk).2 = Ok tt
  ∧ (finaliseConfiguration passthruEnv None bareDisk).1 !! namedConf
    = bareDisk !! namedConf.
Proof.
  apply (finalizer_without_upstream passthruEnv bareDisk).
  - right. vm_compute. reflexivity.
  - vm_compute. discriminate.
  - vm_compute. discriminate.
  - vm_compute. discriminate.
Defined.

Lemma missing_resolver_template_witness :
  (finaliseConfiguration passthruEnv (Some ["8.8.8.8"]) bareDisk).2
  = Err ("open " +:+ namedConf +:+ ": no such file or directory")
  ∧ content (finaliseConfiguration passthruEnv (Some ["8.8.8.8"]) bareDisk).1
      rpzZone
    = content bareDisk rpzZone +:+ passthruText (passthruIPs passthruEnv)
        +:+ "$INCLUDE " +:+ customZone +:+ nl
  ∧ is_Some ((finaliseConfiguration passthruEnv (Some ["8.8.8.8"]) bareDisk).1
               !! customZone).
Proof.
  apply (missing_resolver_template passthruEnv ["8.8.8.8"] bareDisk).
  - right. vm_compute. reflexivity.
  - vm_compute. discriminate.
  - vm_compute. discriminate.
  - vm_compute. discriminate.
  - vm_compute. reflexivity.
Defined.

Lemma generic_mode_always_resolves_witness :
  serviceIP genericEnv "10.0.0.5" (strings.ToUpper "origin") ≠ ""
  ∧ (enabled genericEnv "true" (strings.ToUpper "origin") = true →
     generateService genericEnv "true" "10.0.0.5" cacheZone
       "cache.lancache.net" "origin" "origin.txt" disk
     = enableService (serviceIP genericEnv "10.0.0.5" (strings.ToUpper "origin"))
         cacheZone "cache.lancache.net" (strings.ToUpper "origin")
         "origin.txt" disk).
Proof.
  apply (generic_mode_always_resolves genericEnv "10.0.0.5" cacheZone
           "cache.lancache.net" "origin" "origin.txt" disk).
  vm_compute. reflexivity.
Defined.

Lemma empty_override_is_fatal_witness :
  generateService emptyEnv "false" "" cacheZone "cache.lancache.net" "steam"
    "steam.txt" disk
  = (disk, Err ("Could not find IP for requested service: "
                  +:+ strings.ToUpper "steam")).
Proof.
  apply (empty_override_is_fatal emptyEnv "false" "" cacheZone
           "cache.lancache.net" "steam" "steam.txt" disk).
  - discriminate.
  - vm_compute. reflexivity.
  - vm_compute. reflexivity.
Defined.

Lemma sample_lines_plain :
  Forall plainLine ["# comment"; ""; "store.steampowered.com"].
Proof.
  repeat constructor; try (vm_compute; lia); try discriminate.
Qed.

Lemma ReadLines_unlines_witness :
  bufio.ReadLines (unlines ["# comment"; ""; "store.steampowered.com"])
  = ["# comment"; ""; "store.steampowered.com"]
  ∧ bufio.ReadLines
      (unlines_open ["# comment"; ""; "store.steampowered.com"] "origin.com")
    = (["# comment"; ""; "store.steampowered.com"]
         ++ (if String.eqb "origin.com" "" then [] else ["origin.com"]))%list.
Proof.
  apply (ReadLines_unlines ["# comment"; ""; "store.steampowered.com"]
           "origin.com").
  - apply sample_lines_plain.
  - split; [vm_compute; lia|]. repeat constructor; discriminate.
Defined.

Lemma template_without_tokens_witness :
  finaliseNamedConf steamEnv (Some ["8.8.8.8"]) filledDisk = (filledDisk, Ok tt).
Proof.
  apply (template_without_tokens steamEnv ["8.8.8.8"]
           "forwarders { 8.8.8.8; };" filledDisk).
  - vm_compute. reflexivity.
  - intros O. apply occursIn_occursb in O. vm_compute in O. discriminate O.
  - intros O. apply occursIn_occursb in O. vm_compute in O. discriminate O.
  - intros _ O. apply occursIn_occursb in O. vm_compute in O. discriminate O.
Defined.

Lemma generated_zones_witness :
  content (generateConfiguration steamEnv 1700000000 "false"
             "cache.lancache.net" "" cacheZone (Some ["8.8.8.8"]) usedDisk).1
    cacheZone
  = fmtCacheTemplate "cache.lancache.net" (strconv.FormatInt 1700000000)
      +:+ joined (List.map (zoneBlock steamEnv "false" "") ["steam"; "origin"])
  ∧ content (generateConfiguration steamEnv 1700000000 "false"
               "cache.lancache.net" "" cacheZone (Some ["8.8.8.8"]) usedDisk).1
      rpzZone
    = rpzTemplate +:+ nl
        +:+ joined (List.map
                      (λ sf, rpzBlock steamEnv "false" "" "cache.lancache.net"
                               usedDisk sf.1 sf.2)
                      (zip ["steam"; "origin"] ["steam.txt"; "origin.txt"]))
        +:+ passthruText (passthruIPs steamEnv)
        +:+ "$INCLUDE " +:+ customZone +:+ nl.
Proof.
  apply (generated_zones steamEnv 1700000000 "false" "cache.lancache.net" ""
           cacheZone catalogJSON (Some ["8.8.8.8"]) catalog
           ["steam"; "origin"] ["steam.txt"; "origin.txt"] usedDisk).
  - vm_compute. reflexivity.
  - vm_compute. reflexivity.
  - vm_compute. reflexivity.
  - apply sample_services_ready. vm_compute. reflexivity.
  - left. vm_compute. reflexivity.
  - vm_compute. discriminate.
  - vm_compute. discriminate.
  - vm_compute. discriminate.
  - vm_compute. discriminate.
  - vm_compute. discriminate.
  - vm_compute. discriminate.
  - vm_compute. discriminate.
  - vm_compute. discriminate.
Defined.

End Runs.

(** ** Letter case and line ends *)

Section Case.

Context `{Package}.
Variable environ : gmap string string.

(** X19. The ASCII letter case of a catalog name does not matter to
    [generateService]: the name, its upper-case form and its lower-case
    form are handled in the same way, with the same records. *)
Theorem service_name_case
    (g cacheIP cacheZone dom service file : string) (fs : gmap string string) :
  generateService environ g cacheIP cacheZone dom (strings.ToUpper service)
    file fs
  = generateService environ g cacheIP cacheZone dom service file fs
  ∧ generateService environ g cacheIP cacheZone dom (strings.ToLower service)
      file fs
    = generateService environ g cacheIP cacheZone dom service file fs.
Proof.
  unfold generateService. by rewrite ToUpper_ToUpper, ToUpper_ToLower.
Qed.

End Case.

Lemma dropCR_app_CR line : bufio.dropCR (line +:+ String CR "") = line.
Proof.
  induction line as [|c line IH]; [done|].
  rewrite app_cons_s. simpl. rewrite IH.
  destruct (line +:+ String CR "") eqn:E; [|done].
  by destruct line.
Qed.

(** A line ended by carriage return and line feed, read from its start. *)
Lemma ReadLines_go_crlf line rest cur n :
  Forall (λ c, c ≠ LF ∧ c ≠ CR) (list_ascii_of_string line) →
  (n + S (String.length line) < bufio.defaultBufSize)%nat →
  bufio.ReadLines_go (line +:+ String CR (String LF rest)) cur n
  = (cur +:+ line) :: bufio.ReadLines_go rest "" 0.
Proof.
  revert cur n. induction line as [|c line IH]; intros cur n F L.
  - change ("" +:+ String CR (String LF rest)) with (String CR (String LF rest)).
    rewrite ReadLines_go_cons.
    destruct (Ascii.eqb_spec CR LF) as [|_]; [done|].
    destruct (Nat.eqb_spec (S n) bufio.defaultBufSize) as [E|_];
      [simpl in L; lia|].
    rewrite ReadLines_go_cons. simpl.
    by rewrite dropCR_app_CR, app_nil_r_s.
  - apply Forall_cons in F as [[N1 N2] F].
    change (String.length (String c line)) with (S (String.length line)) in L.
    rewrite app_cons_s, ReadLines_go_cons.
    destruct (Ascii.eqb_spec c LF) as [|_]; [done|].
    destruct (Nat.eqb_spec (S n) bufio.defaultBufSize) as [E|_]; [lia|].
    rewrite IH by (done || lia).
    by rewrite app_assoc_s.
Qed.

(** X20. A domain file with DOS line ends reads like one with Unix line
    ends: for lines without line feed or carriage return inside, each
    shorter than the read buffer by two bytes at least, [ReadLine] returns
    the lines of the file made of them, each ended by carriage return and
    line feed, without the carriage returns. *)
Theorem ReadLines_unlines_crlf (lines : list string) :
  Forall (λ line,
            (S (String.length line) < bufio.defaultBufSize)%nat
            ∧ Forall (λ c, c ≠ LF ∧ c ≠ CR) (list_ascii_of_string line))
    lines →
  bufio.ReadLines (unlines_crlf lines) = lines.
Proof.
  unfold bufio.ReadLines, unlines_crlf.
  induction 1 as [|line lines [L P] _ IH]; [done|].
  cbn [List.map]. rewrite joined_cons, app_assoc_s, app_cons_s.
  change (nl +:+ joined (List.map (λ l, l +:+ String CR nl) lines))
    with (String LF (joined (List.map (λ l, l +:+ String CR nl) lines))).
  rewrite ReadLines_go_crlf by (done || lia). by rewrite IH.
Qed.

Section MoreRuns.

#[local] Existing Instance Sample.package.

Lemma ReadLines_unlines_crlf_witness :
  bufio.ReadLines (unlines_crlf ["store.steampowered.com"; "origin.com"])
  = ["store.steampowered.com"; "origin.com"].
Proof.
  apply (ReadLines_unlines_crlf ["store.steampowered.com"; "origin.com"]).
  repeat constructor; try (vm_compute; lia); discriminate.
Defined.

(** The merge example with DOS line ends gives the records of the plain
    file. *)
Example dos_domain_file :
  rewriteText
    (bufio.ReadLines (unlines_crlf ["store.steampowered.com"; "origin.com"]))
    "cache.lancache.net" "steam"
  = rewriteText
      (bufio.ReadLines (unlines ["store.steampowered.com"; "origin.com"]))
      "cache.lancache.net" "steam".
Proof. vm_compute. reflexivity. Qed.

End MoreRuns.
